(** * fraudHub: the dashboard's pure functions and the analytics pipeline

    The React front end (App.jsx and the components next to it) is embedded
    function by function.  JavaScript numbers are modelled as rationals
    extended with NaN, strings as [string] (the entity name and the search
    text, which are lower-cased and searched, as lists of UTF-16 code
    units), object literals used as maps as [gmap], arrays as lists. *)

From Stdlib Require Import ZArith QArith Qminmax Qround Reals Lra Lia Ascii String.
From Stdlib Require Lqa.
From stdpp Require Import gmap strings list fin_maps.

Local Open Scope string_scope.
Local Open Scope list_scope.

(** ** JavaScript values *)

Module Js.

(** A JavaScript number as the dashboard meets it: a finite value or NaN.
    Every comparison with NaN is false. *)
Inductive num : Type :=
| NaN
| Num (q : Q).

Definition geb (x : num) (q : Q) : bool :=
  match x with
  | NaN => false
  | Num v => Qle_bool q v
  end.

Definition gtb (x : num) (q : Q) : bool :=
  match x with
  | NaN => false
  | Num v => negb (Qle_bool v q)
  end.

(** The order on numbers as propositions; nothing is related to NaN. *)
Definition ge (x : num) (q : Q) : Prop :=
  match x with
  | NaN => False
  | Num v => (q <= v)%Q
  end.

Definition lt (x : num) (q : Q) : Prop :=
  match x with
  | NaN => False
  | Num v => (v < q)%Q
  end.

Definition gt (x : num) (q : Q) : Prop :=
  match x with
  | NaN => False
  | Num v => (q < v)%Q
  end.

(** Truthiness of a string: only the empty string is falsy.  A field that
    is absent from an object ([undefined]) is falsy as well, and every use
    below tests truthiness before anything else, so an absent string field
    is represented by the empty string. *)
Definition truthy (s : string) : bool :=
  match s with
  | EmptyString => false
  | String _ _ => true
  end.

End Js.

(** ** getRiskColor (EntityList.jsx, EntityDetail.jsx, ClaimsTable.jsx) *)

Module EntityList.

Definition getRiskColor (score : Js.num) : string :=
  if Js.geb score 85 then "risk-high"
  else if Js.geb score 70 then "risk-medium"
  else "risk-low".

End EntityList.

Module EntityDetail.

Definition getRiskColor (score : Js.num) : string :=
  if Js.geb score 85 then "risk-high"
  else if Js.geb score 70 then "risk-medium"
  else "risk-low".

End EntityDetail.

(** The second EntityDetail component, stored after ClaimsTable in
    ClaimsTable.jsx. *)
Module ClaimsTable.

Definition getRiskColor (score : Js.num) : string :=
  if Js.geb score 85 then "risk-high"
  else if Js.geb score 70 then "risk-medium"
  else "risk-low".

End ClaimsTable.

(** ** CommunityAnalysisTable.jsx *)

Module CommunityAnalysisTable.

(** One row of [communityMembers].  Community ids are the integers the
    detector hands out; [is_fraud] is the truthiness of the row's flag. *)
Record member : Type := {
  community_id : Z;
  entity_name : string;
  is_fraud : bool
}.

Record stat : Type := { total : nat; fraud : nat }.

Definition bump_total (s : stat) : stat :=
  {| total := S (total s); fraud := fraud s |}.

Definition bump_fraud (s : stat) : stat :=
  {| total := total s; fraud := S (fraud s) |}.

(** The body of the [forEach] callback: create the entry when the key is
    missing, count the row, count it as fraud when flagged. *)
Definition visit (stats : gmap Z stat) (m : member) : gmap Z stat :=
  let stats1 :=
    match stats !! community_id m with
    | None => <[community_id m := {| total := 0; fraud := 0 |}]> stats
    | Some _ => stats
    end in
  let stats2 := alter bump_total (community_id m) stats1 in
  if is_fraud m then alter bump_fraud (community_id m) stats2 else stats2.

(** What one visit leaves in the visited entry, given the entry before. *)
Definition counted (s : option stat) (m : member) : stat :=
  let old := default {| total := 0; fraud := 0 |} s in
  {| total := S (total old);
     fraud := if is_fraud m then S (fraud old) else fraud old |}.

Definition getCommunityStats (communityMembers : list member) : gmap Z stat :=
  foldl visit ∅ communityMembers.

Definition ratio_of (fraud_count total_count : nat) : Q :=
  (inject_Z (Z.of_nat fraud_count) / inject_Z (Z.of_nat total_count))%Q.

(** [const fraudRatio = stats ? (stats.fraud / stats.total) : 0]. *)
Definition fraudRatio (communityStats : gmap Z stat) (cid : Z) : Q :=
  match communityStats !! cid with
  | Some stats => ratio_of (fraud stats) (total stats)
  | None => 0%Q
  end.

(** The numbers shown next to the ratio:
    [(stats ? stats.fraud : 0) / (stats ? stats.total : 0)]. *)
Definition shownCounts (communityStats : gmap Z stat) (cid : Z) : nat * nat :=
  match communityStats !! cid with
  | Some stats => (fraud stats, total stats)
  | None => (0, 0)
  end.

(** Rows of one community, and the flagged ones among them. *)
Definition rows_of (cid : Z) (rows : list member) : list member :=
  List.filter (fun m => bool_decide (community_id m = cid)) rows.

Definition fraud_rows_of (cid : Z) (rows : list member) : list member :=
  List.filter (fun m => is_fraud m) (rows_of cid rows).

End CommunityAnalysisTable.

(** ** Strings as the search box uses them

    The entity name and the search text are trimmed, lower-cased and
    searched, so they are kept as JavaScript has them: sequences of UTF-16
    code units.  Strings that are only stored and compared (keys, option
    values, identifiers) stay [string]. *)

Module JsString.

Definition jsstring : Type := list N.

(** The code units of a literal written in ASCII. *)
Definition text (s : string) : jsstring :=
  List.map N_of_ascii (list_ascii_of_string s).

(** Only the empty string is falsy. *)
Definition truthy (s : jsstring) : bool :=
  match s with
  | [] => false
  | _ :: _ => true
  end.

(** White space and line terminators that [trim] strips: TAB, LF, VT, FF,
    CR, SPACE, U+00A0, U+1680, U+2000-U+200A, U+2028, U+2029, U+202F,
    U+205F, U+3000 and U+FEFF. *)
Definition is_space (c : N) : bool :=
  ((9 <=? c) && (c <=? 13) || (c =? 32) || (c =? 160) || (c =? 5760) ||
   (8192 <=? c) && (c <=? 8202) || (c =? 8232) || (c =? 8233) ||
   (c =? 8239) || (c =? 8287) || (c =? 12288) || (c =? 65279))%N.

Fixpoint trimStart (s : jsstring) : jsstring :=
  match s with
  | [] => []
  | c :: s' => if is_space c then trimStart s' else s
  end.

Fixpoint trimEnd (s : jsstring) : jsstring :=
  match s with
  | [] => []
  | c :: s' =>
      match trimEnd s' with
      | [] => if is_space c then [] else [c]
      | t => c :: t
      end
  end.

Definition trim (s : jsstring) : jsstring := trimEnd (trimStart s).

(** [t] is found at the start of [s]. *)
Fixpoint startsWith (s t : jsstring) {struct t} : bool :=
  match t, s with
  | [], _ => true
  | _ :: _, [] => false
  | d :: t', c :: s' => (c =? d)%N && startsWith s' t'
  end.

(** [s.includes(t)]: [t] occurs in [s] at some position. *)
Fixpoint includes (s t : jsstring) : bool :=
  startsWith s t ||
  match s with
  | [] => false
  | _ :: s' => includes s' t
  end.

(** *** toLowerCase

    The case mapping is written out for Basic Latin, the Latin-1
    Supplement and the Greek letters U+0386-U+03CE.  A code unit outside
    these is taken to have no case: it is returned as it is and takes no
    part in the context of a sigma. *)

(** The lower-case partner that does not depend on the context: A-Z; U+00C0-U+00DE
    without the multiplication sign; the Greek capitals with tonos
    U+0386, U+0388-U+038A, U+038C, U+038E-U+038F; the Greek capitals
    U+0391-U+03AB (U+03A2 is unassigned). *)
Definition lower_unit (c : N) : N :=
  (if (65 <=? c) && (c <=? 90) then c + 32
   else if (192 <=? c) && (c <=? 222) && negb (c =? 215) then c + 32
   else if c =? 902 then 940
   else if (904 <=? c) && (c <=? 906) then c + 37
   else if c =? 908 then 972
   else if (910 <=? c) && (c <=? 911) then c + 63
   else if (913 <=? c) && (c <=? 939) && negb (c =? 930) then c + 32
   else c)%N.

(** Letters that have a case: A-Z, a-z, the ordinal indicators and the
    micro sign, U+00C0-U+00FF without the multiplication and the division
    sign, and the Greek letters U+0386-U+03CE. *)
Definition cased (c : N) : bool :=
  ((65 <=? c) && (c <=? 90) || (97 <=? c) && (c <=? 122) ||
   (c =? 170) || (c =? 181) || (c =? 186) ||
   (192 <=? c) && (c <=? 255) && negb (c =? 215) && negb (c =? 247) ||
   (902 <=? c) && (c <=? 974) &&
     negb ((c =? 903) || (c =? 907) || (c =? 909) || (c =? 930)))%N.

(** Characters that are skipped when the neighbours of a sigma are
    inspected: apostrophe, full stop, colon, circumflex, grave accent,
    diaeresis, soft hyphen, macron, acute accent, middle dot, cedilla, and
    the Greek tonos, dialytika tonos and ano teleia. *)
Definition case_ignorable (c : N) : bool :=
  ((c =? 39) || (c =? 46) || (c =? 58) || (c =? 94) || (c =? 96) ||
   (c =? 168) || (c =? 173) || (c =? 175) || (c =? 180) || (c =? 183) ||
   (c =? 184) || (c =? 900) || (c =? 901) || (c =? 903))%N.

(** [s] starts, after characters that are skipped, with a cased letter. *)
Fixpoint beforeCased (s : jsstring) : bool :=
  match s with
  | [] => false
  | c :: s' => if case_ignorable c then beforeCased s' else cased c
  end.

(** Lower-casing from left to right.  [afterCased] tells whether the text
    read so far ends with a cased letter followed by skipped characters
    only.  A capital sigma (U+03A3) becomes the final sigma (U+03C2) when
    it comes after a cased letter and not before one, and the small sigma
    (U+03C3) otherwise. *)
Fixpoint lowerFrom (afterCased : bool) (s : jsstring) : jsstring :=
  match s with
  | [] => []
  | c :: s' =>
      (if (c =? 931)%N
       then (if afterCased && negb (beforeCased s') then 962%N else 963%N)
       else lower_unit c)
      :: lowerFrom (if case_ignorable c then afterCased else cased c) s'
  end.

Definition toLowerCase (s : jsstring) : jsstring := lowerFrom false s.

(** The white space and line terminator characters, one by one. *)
Definition whiteSpace : list N :=
  [9; 10; 11; 12; 13; 32; 160; 5760;
   8192; 8193; 8194; 8195; 8196; 8197; 8198; 8199; 8200; 8201; 8202;
   8232; 8233; 8239; 8287; 12288; 65279]%N.

(** Only white space (or nothing at all). *)
Definition blank (s : jsstring) : Prop := Forall (fun c => c ∈ whiteSpace) s.

(** Text of Basic Latin and Latin-1 characters. *)
Definition latin1 (s : jsstring) : Prop := Forall (fun c => (c < 256)%N) s.




End JsString.

(** ** App.jsx *)

Module Entity.

(** A row of the ranked entity table as the server sends it. *)
Record entity : Type := {
  entity_name : JsString.jsstring;
  entity_type : string;
  ensemble_score : Js.num;
  connected_claims_count : nat;
  total_exposure : Js.num;
  investigation_status : string
}.

End Entity.

Module App.

Import Entity.

(** The [filters] state. *)
Record filters : Type := {
  sort_by : string;
  filter_status : string;
  min_risk_score : Js.num;
  entity_type : string;
  search : JsString.jsstring
}.

Definition initialFilters : filters :=
  {| sort_by := "ensemble_score";
     filter_status := "all";
     min_risk_score := Js.Num 0;
     entity_type := "All Types";
     search := [] |}.

Definition sampleEntity (n : string) : entity :=
  {| entity_name := JsString.text n; Entity.entity_type := "Doctor";
     ensemble_score := Js.Num 72; connected_claims_count := 2;
     total_exposure := Js.Num 80000; investigation_status := "Not Reviewed" |}.

Definition sampleEntities : list entity :=
  [sampleEntity "Dr. Michael Rodriguez"; sampleEntity "Lawyer B";
   sampleEntity "RODRIGO Imports"].

Definition searching (s : string) : filters :=
  {| sort_by := "ensemble_score"; filter_status := "all";
     min_risk_score := Js.Num 0; entity_type := "All Types";
     search := JsString.text s |}.

(** A name in Greek capitals, alpha and sigma (U+0391 U+03A3), and the
    search for a capital sigma. *)
Definition alphaSigma : entity :=
  {| entity_name := [913; 931]%N; Entity.entity_type := "Business";
     ensemble_score := Js.Num 72; connected_claims_count := 2;
     total_exposure := Js.Num 80000; investigation_status := "Not Reviewed" |}.

Definition searchingSigma : filters :=
  {| sort_by := "ensemble_score"; filter_status := "all";
     min_risk_score := Js.Num 0; entity_type := "All Types";
     search := [931%N] |}.

Definition matchesSearch (searchLower : JsString.jsstring) (e : entity) : bool :=
  JsString.includes (JsString.toLowerCase (entity_name e)) searchLower.

Definition applyClientSideFilters
    (entitiesList : list entity) (currentFilters : filters) : list entity :=
  let filtered := entitiesList in
  if JsString.truthy (search currentFilters) &&
     JsString.truthy (JsString.trim (search currentFilters))
  then
    let searchLower := JsString.toLowerCase (search currentFilters) in
    List.filter (matchesSearch searchLower) filtered
  else filtered.

(** A value stored in the query-parameter object. *)
Inductive param : Type :=
| PStr (s : string)
| PNum (n : Js.num).

(** The [filterParams] object that [loadEntities] builds and hands to
    [api.getEntities]. *)
Definition filterParams (currentFilters : filters) : gmap string param :=
  let p0 : gmap string param := ∅ in
  let p1 :=
    if Js.truthy (sort_by currentFilters)
    then <["sort_by" := PStr (sort_by currentFilters)]> p0 else p0 in
  let p2 :=
    if Js.truthy (filter_status currentFilters) &&
       negb (String.eqb (filter_status currentFilters) "all")
    then <["filter_status" := PStr (filter_status currentFilters)]> p1 else p1 in
  let p3 :=
    if Js.gtb (min_risk_score currentFilters) 0
    then <["min_risk_score" := PNum (min_risk_score currentFilters)]> p2 else p2 in
  let p4 :=
    if Js.truthy (entity_type currentFilters) &&
       negb (String.eqb (entity_type currentFilters) "All Types")
    then <["entity_type" := PStr (entity_type currentFilters)]> p3 else p3 in
  p4.

(** The claim about [filterParams] read word for word: the status is sent
    exactly when it differs from 'all', the type exactly when it differs
    from 'All Types'. *)
Definition params_as_worded (f : filters) : Prop :=
  let p := filterParams f in
  (Js.truthy (sort_by f) = true -> p !! "sort_by" = Some (PStr (sort_by f))) /\
  (is_Some (p !! "filter_status") <-> filter_status f <> "all") /\
  (is_Some (p !! "min_risk_score") <-> Js.gt (min_risk_score f) 0) /\
  (is_Some (p !! "entity_type") <-> entity_type f <> "All Types").


End App.

(** ** NetworkVisualization (stored in CommunityAnalysisTable.jsx) *)

Module NetworkVisualization.

Record node : Type := {
  id : string;
  name : string;
  communities : list Z;
  isFraud : bool
}.

(** An edge end is the id the server sent, or the node object that the
    force layout has put in its place. *)
Inductive endpoint : Type :=
| EId (s : string)
| ENode (n : node).

Record edge : Type := {
  source : endpoint;
  target : endpoint;
  weight : nat;
  claimNumbers : string
}.

Record networkData : Type := {
  nodes : list node;
  edges : list edge
}.

(** What [x.id || x] evaluates to: a string has no [id], so it stands for
    itself; a node object yields its id unless that id is empty, in which
    case the object itself comes out.  Objects in the set are told apart by
    their fields. *)
Inductive key : Type :=
| KStr (s : string)
| KObj (n : node).

#[global] Instance node_eq_dec : EqDecision node.
Proof. solve_decision. Defined.

#[global] Instance key_eq_dec : EqDecision key.
Proof. solve_decision. Defined.

Definition idOr (x : endpoint) : key :=
  match x with
  | EId s => KStr s
  | ENode n => if Js.truthy (id n) then KStr (id n) else KObj n
  end.

(** [x === selectedNodeId || x.id === selectedNodeId]. *)
Definition isSelected (selectedNodeId : string) (x : endpoint) : bool :=
  match x with
  | EId s => String.eqb s selectedNodeId
  | ENode n => String.eqb (id n) selectedNodeId
  end.

(** A [Set] as the keys in insertion order. *)
Definition has (s : list key) (k : key) : bool := bool_decide (k ∈ s).

Definition add (s : list key) (k : key) : list key :=
  if has s k then s else s ++ [k].

Definition collect (selectedNodeId : string) (s : list key) (e : edge) : list key :=
  let s1 := if isSelected selectedNodeId (source e) then add s (idOr (target e)) else s in
  if isSelected selectedNodeId (target e) then add s1 (idOr (source e)) else s1.

Definition connectedNodeIds (data : networkData) (selectedNodeId : string) : list key :=
  foldl (collect selectedNodeId) [KStr selectedNodeId] (edges data).

(** The [viewMode === 'ego'] branch of [filteredData]. *)
Definition egoData (data : networkData) (selectedNodeId : string) : networkData :=
  let connected := connectedNodeIds data selectedNodeId in
  let filteredNodes :=
    List.filter (fun n => has connected (KStr (id n))) (nodes data) in
  let filteredEdges :=
    List.filter (fun e => has connected (idOr (source e)) &&
                          has connected (idOr (target e))) (edges data) in
  {| nodes := filteredNodes; edges := filteredEdges |}.

(** The entity an edge end refers to. *)
Definition endId (x : endpoint) : string :=
  match x with
  | EId s => s
  | ENode n => id n
  end.

Definition nodeIds (data : networkData) : list string := map id (nodes data).

(** [a] and [b] are the two ends of some edge of the data. *)
Definition sharesEdge (data : networkData) (a b : string) : Prop :=
  exists e, e ∈ edges data /\
    ((endId (source e) = a /\ endId (target e) = b) \/
     (endId (target e) = a /\ endId (source e) = b)).

(** Edge-closure of the ego graph as the claim words it, for any data and
    any selection. *)
Definition ego_closed (data : networkData) (selectedNodeId : string) : Prop :=
  let g := egoData data selectedNodeId in
  (forall i, i ∈ nodeIds g <-> i = selectedNodeId \/ sharesEdge data selectedNodeId i) /\
  (forall e, e ∈ edges g ->
     endId (source e) ∈ nodeIds g /\ endId (target e) ∈ nodeIds g).

(** A dataset that is a graph: nodes carry a name, edges join listed nodes. *)
Definition wellFormed (data : networkData) : Prop :=
  (forall n, n ∈ nodes data -> id n <> EmptyString) /\
  (forall e, e ∈ edges data ->
     endId (source e) ∈ nodeIds data /\ endId (target e) ∈ nodeIds data).

(** What an edge contributes to the set when [sel] is selected. *)
Definition reaches (sel : string) (e : edge) (k : key) : Prop :=
  (isSelected sel (source e) = true /\ k = idOr (target e)) \/
  (isSelected sel (target e) = true /\ k = idOr (source e)).

(** Sample datasets: a triangle with a pendant node, as the server sends it
    and after the layout has replaced some edge ends by node objects; a
    dataset with an edge to a node that is not listed; a dataset with a
    nameless node. *)
Definition mkNode (i : string) : node :=
  {| id := i; name := i; communities := []; isFraud := false |}.

Definition mkEdge (a b : endpoint) : edge :=
  {| source := a; target := b; weight := 1; claimNumbers := "WC-2024-001" |}.

Definition sampleGraph : networkData :=
  {| nodes := [mkNode "Dr. A"; mkNode "Lawyer B"; mkNode "Business C"; mkNode "Driver D"];
     edges := [mkEdge (EId "Dr. A") (EId "Lawyer B");
               mkEdge (ENode (mkNode "Lawyer B")) (ENode (mkNode "Business C"));
               mkEdge (EId "Business C") (ENode (mkNode "Dr. A"));
               mkEdge (EId "Business C") (EId "Driver D")] |}.

Definition danglingGraph : networkData :=
  {| nodes := [mkNode "Dr. A"];
     edges := [mkEdge (EId "Dr. A") (EId "Lawyer B")] |}.

Definition namelessGraph : networkData :=
  {| nodes := [mkNode EmptyString; mkNode "Dr. A"];
     edges := [mkEdge (ENode (mkNode EmptyString)) (EId "Dr. A")] |}.

End NetworkVisualization.

(** ** The analytics pipeline (backend/data_processor.py)

    The Python engine is not part of the sources at hand; its stages are
    written down here from the specification, over the real numbers. *)

Module Pipeline.

Local Open Scope R_scope.

(** Modelled from the spec: the failures a run can end in (error taxonomy
    of section 7); the driver of data_processor.py is missing. *)
Inductive failure : Type :=
| CorpusMissing
| InputDataError (record : string).

(** Modelled from the spec: a stage either hands on its result or raises a
    failure (section 7); the driver of data_processor.py is missing. *)
Inductive outcome (A : Type) : Type :=
| Ok (a : A)
| Raised (e : failure).
Arguments Ok {A} a.
Arguments Raised {A} e.

(** Sequencing of stages: the first failure ends the run. *)
Definition bind {A B : Type} (x : outcome A) (k : A -> outcome B) : outcome B :=
  match x with
  | Ok a => k a
  | Raised e => Raised e
  end.

(** Modelled from the spec: a Claim of the corpus (section 3) with the
    entities the Mention Extractor resolved in its notes; the corpus loader
    of data_processor.py is missing. *)
Record claim : Type := {
  claim_number : string;
  total_incurred : R;
  associated : list string;
  mentioned : list string
}.

(** Modelled from the spec: the Entity/Claim Corpus (section 2), entities by
    name; the corpus loader of data_processor.py is missing. *)
Record corpus : Type := {
  entity_roster : list string;
  claims : list claim
}.

(** Modelled from the spec: the entities present on a claim are its
    ground-truth associations together with the extracted mentions, as a set
    (section 4.2); the graph builder of data_processor.py is missing. *)
Definition present (c : claim) : list string :=
  remove_dups (associated c ++ mentioned c).

(** *** Co-occurrence Graph Builder *)

(** Modelled from the spec: a pair is stored with the lexicographically
    smaller name first (section 3, Connection); data_processor.py:508-559 is
    missing. *)
Definition canonical (a b : string) : string * string :=
  if String.ltb a b then (a, b) else (b, a).

(** Modelled from the spec: every unordered pair of distinct entities
    present on the claim, each pair once per claim (section 4.2);
    data_processor.py is missing. *)
Definition pairs_of_claim (c : claim) : list (string * string) :=
  remove_dups
    (a ← present c; b ← present c;
     if decide (a = b) then [] else [canonical a b]).

(** Modelled from the spec: what the graph keeps for a pair, the weight and
    the shared-claim list (section 4.2); data_processor.py is missing. *)
Record link : Type := {
  strength : nat;
  shared : list string
}.

(** Modelled from the spec: for a pair on a claim, increment the edge weight
    and append the claim number to the edge's shared-claim list
    (section 4.2); data_processor.py is missing. *)
Definition add_pair (cn : string) (g : gmap (string * string) link)
    (p : string * string) : gmap (string * string) link :=
  match g !! p with
  | None => <[p := {| strength := 1; shared := [cn] |}]> g
  | Some l => <[p := {| strength := S (strength l); shared := shared l ++ [cn] |}]> g
  end.

(** Modelled from the spec: one claim adds each of its pairs once
    (section 4.2); data_processor.py is missing. *)
Definition add_claim (g : gmap (string * string) link) (c : claim)
    : gmap (string * string) link :=
  foldl (add_pair (claim_number c)) g (pairs_of_claim c).

(** Modelled from the spec: the co-occurrence graph of a claim list, keyed
    by the stored pair (section 4.2); data_processor.py is missing. *)
Definition build_graph (cs : list claim) : gmap (string * string) link :=
  foldl add_claim ∅ cs.

(** Modelled from the spec: a Connection record (section 3) with the field
    names the connections table of the dashboard reads; the table generator
    of data_processor.py is missing. *)
Record Connection : Type := {
  source_entity : string;
  target_entity : string;
  connection_strength : nat;
  shared_claim_numbers : list string
}.

(** The record made from a stored pair and its link. *)
Definition to_connection (kv : string * string * link) : Connection :=
  {| source_entity := kv.1.1;
     target_entity := kv.1.2;
     connection_strength := strength kv.2;
     shared_claim_numbers := shared kv.2 |}.

(** Modelled from the spec: the graph collapsed into one Connection record
    per stored pair (section 4.2); data_processor.py:508-559 is missing. *)
Definition connections (cs : list claim) : list Connection :=
  to_connection <$> map_to_list (build_graph cs).

(** Every key of the graph has its smaller name first. *)
Definition ordered (g : gmap (string * string) link) : Prop :=
  forall p l, g !! p = Some l -> String.ltb p.1 p.2 = true.

(** The pair a record stands for. *)
Definition pair_of (r : Connection) : string * string :=
  (source_entity r, target_entity r).

(** The record joins [a] and [b], in either direction. *)
Definition joins (a b : string) (r : Connection) : bool :=
  bool_decide (source_entity r = a /\ target_entity r = b) ||
  bool_decide (source_entity r = b /\ target_entity r = a).

(** *** External Signal Loader *)

(** Modelled from the spec: a simulated score is a value bounded in [0,1]
    (section 4.5); the generator of data_processor.py is missing. *)
Definition unit_score : Type := { x : R | 0 <= x <= 1 }.

(** Modelled from the spec: a row of the score source, well-formed or
    malformed (section 4.5); the CSV reader of data_processor.py is missing. *)
Inductive row : Type :=
| Malformed
| ScoreRow (claim_no : string) (score : R).

(** Modelled from the spec: the external source is absent, unreadable, or
    yields rows (section 4.5); the CSV reader of data_processor.py is
    missing. *)
Inductive source : Type :=
| Absent
| Unreadable
| Rows (rows : list row).

(** Modelled from the spec: what the loader returns, the score table, the
    simulated-data flag and the count of skipped rows (section 4.5); the
    load methods of data_processor.py are missing. *)
Record loaded : Type := {
  scores : gmap string R;
  simulated : bool;
  skipped : nat
}.

(** Modelled from the spec: a malformed row is skipped, a well-formed one
    sets the score of its claim (section 4.5); the CSV reader of
    data_processor.py is missing. *)
Definition read_row (acc : gmap string R * nat) (r : row) : gmap string R * nat :=
  match r with
  | Malformed => (acc.1, S acc.2)
  | ScoreRow c s => (<[c := s]> acc.1, acc.2)
  end.

(** Modelled from the spec: the fallback table gives every claim a
    simulated score (section 4.5); the generator of data_processor.py is
    missing. *)
Definition simulated_table (simulate : string -> unit_score)
    (claim_numbers : list string) : gmap string R :=
  list_to_map ((fun c => (c, proj1_sig (simulate c))) <$> claim_numbers).

(** Modelled from the spec: the External Signal Loader (section 4.5): scores
    come from the source, malformed rows are skipped; an absent or unreadable
    source is replaced by simulated scores bounded in [0,1] and the run is
    flagged; the load methods of data_processor.py (290-313) are missing.
    [simulate] stands for the generator of simulated scores. *)
Definition load_external_scores (simulate : string -> unit_score)
    (claim_numbers : list string) (src : source) : outcome loaded :=
  match src with
  | Rows rows =>
      let '(tbl, bad) := foldl read_row (∅, 0%nat) rows in
      Ok {| scores := tbl; simulated := false; skipped := bad |}
  | Absent | Unreadable =>
      Ok {| scores := simulated_table simulate claim_numbers;
            simulated := true; skipped := 0 |}
  end.

(** *** Entity Aggregator *)

(** Modelled from the spec: the three centralities of an entity
    (section 4.4); the scorer of data_processor.py is missing. *)
Record centrality : Type := {
  degree : R;
  betweenness : R;
  eigenvector : R
}.

(** Modelled from the spec: the configurable weights (sections 4.4 and
    4.6); config.py is missing. *)
Record config : Type := {
  w_degree : R;
  w_betweenness : R;
  w_eigenvector : R;
  w_social : R;
  w_ext : R
}.

(** Modelled from the spec: the default weights, 0.4/0.3/0.3 for the
    centralities and 0.6/0.4 for the ensemble (sections 4.4 and 4.6; the
    backend README names them SOCIAL_NETWORK_WEIGHT = 0.6 and
    EXTERNAL_FRAUD_WEIGHT = 0.4); config.py is missing. *)
Definition default_config : config :=
  {| w_degree := 4 / 10;
     w_betweenness := 3 / 10;
     w_eigenvector := 3 / 10;
     w_social := 6 / 10;
     w_ext := 4 / 10 |}.

(** Modelled from the spec: social-network score = 100 x (w_deg.degree +
    w_betw.betweenness + w_eig.eigenvector) (section 4.4); the scorer of
    data_processor.py is missing. *)
Definition social_score (cfg : config) (c : centrality) : R :=
  100 * (w_degree cfg * degree c + w_betweenness cfg * betweenness c +
         w_eigenvector cfg * eigenvector c).

Definition sum (l : list R) : R := foldr Rplus 0 l.

(** Modelled from the spec: the average of the listed scores; without any
    claim there is no signal and the average is taken as 0 (section 4.6);
    the aggregation of data_processor.py is missing. *)
Definition average (l : list R) : R :=
  match l with
  | [] => 0
  | _ :: _ => sum l / INR (length l)
  end.

(** Modelled from the spec: a claim with no external score contributes 0
    (section 4.6); the aggregation of data_processor.py is missing. *)
Definition contribution (s : option R) : R := default 0 s.

(** Modelled from the spec: external composite = average(external score of
    each associated claim) x ln(1 + count of associated claims)
    (section 4.6); the aggregation of data_processor.py is missing. *)
Definition external_composite (claim_scores : list (option R)) : R :=
  average (contribution <$> claim_scores) * ln (1 + INR (length claim_scores)).

(** Modelled from the spec: ensemble = 100 x (w_social . social/100 +
    w_ext . min(external_composite, 1)) (section 4.6); the scoring of
    data_processor.py is missing. *)
Definition ensemble (cfg : config) (social composite : R) : R :=
  100 * (w_social cfg * (social / 100) + w_ext cfg * Rmin composite 1).

(** The formula as the project notes print it (frontend_quick_setup.md,
    "Fraud Detection Algorithm"):
    [ensemble_score = (0.6 * social_network_score) + (0.4 * external_fraud_score * 100)]. *)
Definition ensemble_in_notes (social external : R) : R :=
  (6 / 10 * social) + (4 / 10 * external * 100).

(** Modelled from the spec: the Entity Risk Record (section 3), the fields
    the aggregation fills; data_processor.py is missing. *)
Record EntityRiskRecord : Type := {
  entity_name : string;
  graph_centrality : centrality;
  social_network_score : R;
  composite_external_score : R;
  connected_claims_count : nat;
  total_exposure : R;
  ensemble_score : R
}.

(** Modelled from the spec: the claims an entity appears on, ground truth
    or extracted mention (section 4.6); data_processor.py is missing. *)
Definition claims_of (e : string) (cs : list claim) : list claim :=
  List.filter (fun c => bool_decide (e ∈ present c)) cs.

(** The external score of each listed claim, if the table has one. *)
Definition claim_scores (tbl : gmap string R) (cs : list claim) : list (option R) :=
  (fun c => tbl !! claim_number c) <$> cs.

(** Modelled from the spec: the Entity Aggregator (section 4.6) joins the
    graph metrics of an entity with the external scores of its claims; the
    aggregation of data_processor.py is missing.  [scorer] stands for the
    Centrality Scorer. *)
Definition aggregate (cfg : config) (scorer : string -> centrality)
    (tbl : gmap string R) (cs : list claim) (e : string) : EntityRiskRecord :=
  let mine := claims_of e cs in
  let social := social_score cfg (scorer e) in
  let composite := external_composite (claim_scores tbl mine) in
  {| entity_name := e;
     graph_centrality := scorer e;
     social_network_score := social;
     composite_external_score := composite;
     connected_claims_count := length mine;
     total_exposure := sum (total_incurred <$> mine);
     ensemble_score := ensemble cfg social composite |}.

(** Modelled from the spec: a snapshot, the immutable result of one run,
    with the run's simulated-data mark (sections 4.5 and 5); the driver of
    data_processor.py is missing. *)
Record snapshot : Type := {
  entity_table : list EntityRiskRecord;
  connection_table : list Connection;
  score_table : gmap string R;
  used_simulated_data : bool
}.

(** Modelled from the spec: a run fails only when the corpus is missing
    altogether (section 7); otherwise it loads the external signal, keeps the
    loader's simulated-data flag and aggregates every entity of the roster;
    the driver of data_processor.py is missing. *)
Definition run_pipeline (cfg : config) (scorer : string -> centrality)
    (simulate : string -> unit_score)
    (input : option corpus) (src : source) : outcome snapshot :=
  match input with
  | None => Raised CorpusMissing
  | Some c =>
      bind (load_external_scores simulate (claim_number <$> claims c) src)
        (fun ext =>
           Ok {| entity_table :=
                   aggregate cfg scorer (scores ext) (claims c) <$> entity_roster c;
                 connection_table := connections (claims c);
                 score_table := scores ext;
                 used_simulated_data := simulated ext |})
  end.

(** *** Sample data: the scenario of the specification *)

Definition sample_claim_1 : claim :=
  {| claim_number := "WC-2024-001"; total_incurred := 50000;
     associated := ["Dr. A"; "Lawyer B"]; mentioned := [] |}.

Definition sample_claim_2 : claim :=
  {| claim_number := "WC-2024-002"; total_incurred := 30000;
     associated := ["Dr. A"; "Lawyer B"; "Business C"];
     mentioned := ["Dr. A"] |}.

Definition sample_claims : list claim := [sample_claim_1; sample_claim_2].

(** A score table that gives the second claim the score 1 / ln 2. *)
Definition sample_scores : gmap string R := {[ "WC-2024-002" := 1 / ln 2 ]}.

Definition sample_corpus : corpus :=
  {| entity_roster := ["Dr. A"; "Lawyer B"; "Business C"; "Driver D"];
     claims := sample_claims |}.

Definition no_centrality (e : string) : centrality :=
  {| degree := 0; betweenness := 0; eigenvector := 0 |}.

Definition full_centrality (e : string) : centrality :=
  {| degree := 1; betweenness := 1; eigenvector := 1 |}.

Definition certain : unit_score := exist _ 1 (conj Rle_0_1 (Rle_refl 1)).

Definition always_certain (claim_no : string) : unit_score := certain.

End Pipeline.

(** ** Community badge (CommunityAnalysisTable.jsx, inside the table rows) *)

Module CommunityBadge.

(** The [getRiskColor] local to a row of the communities table:
    [ratio > 0.6], then [ratio > 0.3]. *)
Definition getRiskColor (ratio : Q) : string :=
  if negb (Qle_bool ratio (6 # 10)) then "badge-red"
  else if negb (Qle_bool ratio (3 # 10)) then "badge-yellow"
  else "badge-green".

(** The badge of the row for community [cid]. *)
Definition badge (communityStats : gmap Z CommunityAnalysisTable.stat) (cid : Z) : string :=
  getRiskColor (CommunityAnalysisTable.fraudRatio communityStats cid).

(** Rows counted over all entries of the stats object. *)
Definition counted_rows (communityStats : gmap Z CommunityAnalysisTable.stat) : nat :=
  map_fold (fun _ s acc => CommunityAnalysisTable.total s + acc) 0 communityStats.

End CommunityBadge.

(** ** FraudRulesTable (stored in EntityList.jsx) *)

Module FraudRulesTable.

Definition getValueColor (value : Js.num) : string :=
  if Js.geb value 8 then "text-red-600 font-bold"
  else if Js.geb value 5 then "text-orange-600"
  else "text-gray-600".

End FraudRulesTable.

(** ** FilterBar and the filter state of App *)

Module FilterBar.

Import App.

(** A change made in the bar: the key and the value handed to
    [handleChange].  The minimum risk score arrives through [parseInt]. *)
Inductive change : Type :=
| Search (value : JsString.jsstring)
| EntityType (value : string)
| MinRiskScore (value : Js.num)
| FilterStatus (value : string).

(** [const newFilters = { ...localFilters, [key]: value }]. *)
Definition handleChange (localFilters : filters) (c : change) : filters :=
  match c with
  | Search v =>
      {| sort_by := sort_by localFilters;
         filter_status := filter_status localFilters;
         min_risk_score := min_risk_score localFilters;
         entity_type := entity_type localFilters;
         search := v |}
  | EntityType v =>
      {| sort_by := sort_by localFilters;
         filter_status := filter_status localFilters;
         min_risk_score := min_risk_score localFilters;
         entity_type := v;
         search := search localFilters |}
  | MinRiskScore v =>
      {| sort_by := sort_by localFilters;
         filter_status := filter_status localFilters;
         min_risk_score := v;
         entity_type := entity_type localFilters;
         search := search localFilters |}
  | FilterStatus v =>
      {| sort_by := sort_by localFilters;
         filter_status := v;
         min_risk_score := min_risk_score localFilters;
         entity_type := entity_type localFilters;
         search := search localFilters |}
  end.

(** [{ ...filters, sort_by: sort }], the object the sort buttons of
    EntityList hand to [handleFilterChange]. *)
Definition withSort (f : filters) (sort : string) : filters :=
  {| sort_by := sort;
     filter_status := filter_status f;
     min_risk_score := min_risk_score f;
     entity_type := entity_type f;
     search := search f |}.

(** The two copies of the filter state: [filters] of App and
    [localFilters] of FilterBar. *)
Record ui : Type := {
  appFilters : filters;
  localFilters : filters
}.

(** FilterBar starts from the filters App renders it with. *)
Definition mount (f : filters) : ui :=
  {| appFilters := f; localFilters := f |}.

Inductive event : Type :=
| BarChange (c : change)
| SortChange (sort : string).

(** A bar change builds the new filters from [localFilters], stores them
    there and hands them to [handleFilterChange], which stores them in App.
    A sort change builds the new filters from App's [filters] and stores them
    in App only. *)
Definition step (st : ui) (ev : event) : ui :=
  match ev with
  | BarChange c =>
      let newFilters := handleChange (localFilters st) c in
      {| appFilters := newFilters; localFilters := newFilters |}
  | SortChange sort =>
      {| appFilters := withSort (appFilters st) sort;
         localFilters := localFilters st |}
  end.

Definition run (st : ui) (evs : list event) : ui := foldl step st evs.

(** What stays true of the two copies of the filter state, whatever is
    clicked: FilterBar's copy keeps the sort key it was mounted with, and
    the two copies agree on everything else. *)
Definition in_step (f0 : filters) (st : ui) : Prop :=
  sort_by (localFilters st) = sort_by f0 /\
  filter_status (appFilters st) = filter_status (localFilters st) /\
  min_risk_score (appFilters st) = min_risk_score (localFilters st) /\
  entity_type (appFilters st) = entity_type (localFilters st) /\
  search (appFilters st) = search (localFilters st).

(** A bar change made in the search box, and a history without them. *)
Definition isSearch (ev : event) : bool :=
  match ev with
  | BarChange (Search _) => true
  | _ => false
  end.

Definition dropSearch (evs : list event) : list event :=
  List.filter (fun ev => negb (isSearch ev)) evs.

(** Two filter states that ask the same of the server. *)
Definition same_request (f f' : filters) : Prop :=
  sort_by f = sort_by f' /\
  filter_status f = filter_status f' /\
  min_risk_score f = min_risk_score f' /\
  entity_type f = entity_type f'.

(** The values the two selects of the bar can hand to [handleChange]: the
    text of an <option> without a value attribute, the attribute
    otherwise. *)
Definition entityTypeOptions : list string :=
  ["All Types"; "Doctor"; "Lawyer"; "Business"; "Regular Person"; "Driver"].

Definition statusOptions : list string :=
  ["all"; "Not Reviewed"; "Under Investigation"; "Bad Actor"; "Cleared"].

(** The keys of the three sort buttons of EntityList. *)
Definition sortKeys : list string :=
  ["ensemble_score"; "total_exposure"; "connected_claims_count"].

(** An event the controls can produce.  The search box hands over any
    text and the slider any number; the selects and the sort buttons hand
    over one of their values. *)
Definition offered (ev : event) : Prop :=
  match ev with
  | BarChange (Search _) => True
  | BarChange (EntityType v) => v ∈ entityTypeOptions
  | BarChange (MinRiskScore _) => True
  | BarChange (FilterStatus v) => v ∈ statusOptions
  | SortChange sort => sort ∈ sortKeys
  end.

(** Status and type are among the values the selects offer. *)
Definition chosen (f : filters) : Prop :=
  filter_status f ∈ statusOptions /\ entity_type f ∈ entityTypeOptions.

(** The filter states [loadEntities] is called with: App's [filters] as
    first rendered, and what App holds after each event. *)
Definition reachable (f : filters) : Prop :=
  exists evs : list event,
    Forall offered evs /\ f = appFilters (run (mount initialFilters) evs).

End FilterBar.

(** ** Selection kept across a reload (App.jsx, loadEntities) *)

Module Selection.

Import Entity.

(** The selection after a successful load of [data]: with a selection and a
    non-empty answer, the first row of the same name replaces it, or nothing
    when there is no such row; otherwise the selection stays. *)
Definition afterLoad (selectedEntity : option entity) (data : list entity)
    : option entity :=
  match selectedEntity, data with
  | Some sel, _ :: _ =>
      List.find (fun e => bool_decide (entity_name e = entity_name sel)) data
  | _, _ => selectedEntity
  end.

End Selection.

(** ** NetworkVisualization: community view, highlighting, painting *)

Module NetworkView.

Import NetworkVisualization.

(** [node.communities.some(c => selectedCommunities.has(c))].  A node
    without the [communities] field behaves like a node with the empty list
    in every test of the component, so the empty list stands for both. *)
Definition sharesCommunity (selectedCommunities : list Z) (n : node) : bool :=
  existsb (fun c => bool_decide (c ∈ selectedCommunities)) (communities n).

Definition noteMember (selectedCommunities : list Z) (s : list key) (n : node)
    : list key :=
  if sharesCommunity selectedCommunities n then add s (KStr (id n)) else s.

Definition communityNodeIds (data : networkData) (selectedCommunities : list Z)
    : list key :=
  foldl (noteMember selectedCommunities) [] (nodes data).

(** What the community branch returns: [{ nodes: [x], edges: [] }] with
    [x] possibly undefined, or the filtered data. *)
Inductive communityView : Type :=
| Lone (x : option node)
| Members (g : networkData).

(** The [viewMode === 'community'] branch of [filteredData]. *)
Definition communityData (data : networkData) (selectedNodeId : string)
    : communityView :=
  match List.find (fun n => String.eqb (id n) selectedNodeId) (nodes data) with
  | None => Lone (head (nodes data))
  | Some selectedNode =>
      match communities selectedNode with
      | [] => Lone (Some selectedNode)
      | _ :: _ =>
          let ids := communityNodeIds data (communities selectedNode) in
          Members
            {| nodes := List.filter (fun n => has ids (KStr (id n))) (nodes data);
               edges := List.filter
                          (fun e => has ids (idOr (source e)) &&
                                    has ids (idOr (target e))) (edges data) |}
      end
  end.

(** [sourceId === selectedNodeId || targetId === selectedNodeId] in the
    highlighting effect. *)
Definition touches (selectedNodeId : string) (e : edge) : bool :=
  bool_decide (idOr (source e) = KStr selectedNodeId) ||
  bool_decide (idOr (target e) = KStr selectedNodeId).

Definition mark (selectedNodeId : string) (s : list key) (e : edge) : list key :=
  if touches selectedNodeId e
  then add (add s (idOr (source e))) (idOr (target e))
  else s.

(** [highlightNodesSet] and [highlightLinksSet] of the effect that follows
    a change of selection, for the data on display. *)
Definition highlightNodes (shown : networkData) (selectedNodeId : string) : list key :=
  foldl (mark selectedNodeId) [KStr selectedNodeId] (edges shown).

Definition highlightLinks (shown : networkData) (selectedNodeId : string) : list edge :=
  List.filter (touches selectedNodeId) (edges shown).

(** *** Colours *)

Definition communityColors : list string :=
  ["#FF6B6B"; "#4ECDC4"; "#45B7D1"; "#FFA07A"; "#98D8C8";
   "#F7DC6F"; "#BB8FCE"; "#85C1E2"; "#F8B739"; "#52B788"].

(** [communityColors[commId % communityColors.length]]: the remainder has
    the sign of [commId], and a negative index reads [undefined]. *)
Definition colorOf (commId : Z) : option string :=
  let i := Z.rem commId (Z.of_nat (length communityColors)) in
  if (i <? 0)%Z then None else communityColors !! Z.to_nat i.

Definition getNodeColor (n : node) : option string :=
  match communities n with
  | [] => Some "#95A5A6"
  | c :: _ => colorOf c
  end.

(** The colour stops of a node in several communities:
    [idx / Math.min(node.communities.length, 3)] with the colour of the
    community, for the first three communities. *)
Definition gradientStops (n : node) : list (Q * option string) :=
  imap (fun idx commId =>
          (inject_Z (Z.of_nat idx) /
           inject_Z (Z.of_nat (Nat.min (length (communities n)) 3)),
           colorOf commId)%Q)
       (take 3 (communities n)).

(** *** Sizes *)

(** A node together with the two numbers its size is computed from. *)
Record measured : Type := {
  shown : node;
  riskScore : Q;
  financialExposure : Q
}.

Definition metricOf (sortBy : string) (m : measured) : Q :=
  if String.eqb sortBy "total_exposure" then financialExposure m else riskScore m.

(** [Math.max(...values)] and [Math.min(...values)]; [None] stands for the
    infinite answer on no values. *)
Definition maxOf (values : list Q) : option Q :=
  match values with
  | [] => None
  | v :: vs => Some (foldl Qmax v vs)
  end.

Definition minOf (values : list Q) : option Q :=
  match values with
  | [] => None
  | v :: vs => Some (foldl Qmin v vs)
  end.

(** [getNodeSize]: [selected] is the name of the selected entity, if any.
    On no nodes the maximum is -Infinity and the minimum Infinity, the
    normalised value is NaN and so is the size.  The arithmetic is exact
    here and rounded to doubles in the code (12 * 1.3 gives
    15.600000000000001 there), so what is proved of the sizes below are
    bounds with room for the rounding. *)
Definition getNodeSize (filteredData : option (list measured)) (sortBy : string)
    (selected : option string) (m : measured) : Js.num :=
  let baseSize := 3%Q in
  let maxSize := 12%Q in
  let minSize := 3%Q in
  match filteredData with
  | None => Js.Num baseSize
  | Some ns =>
      let values := metricOf sortBy <$> ns in
      match maxOf values, minOf values with
      | Some maxValue, Some minValue =>
          if Qeq_bool maxValue minValue then Js.Num baseSize
          else
            let normalized := ((metricOf sortBy m - minValue) / (maxValue - minValue))%Q in
            let size := (minSize + normalized * (maxSize - minSize))%Q in
            match selected with
            | Some sel =>
                if String.eqb (id (shown m)) sel
                then Js.Num (size * (13 # 10))%Q
                else Js.Num size
            | None => Js.Num size
            end
      | _, _ => Js.NaN
      end
  end.

(** *** Links *)

(** A number computed while painting a link: finite, +Infinity or NaN. *)
Inductive drawn : Type :=
| Finite (q : Q)
| Infinite
| Undefined.

Definition weightOf (e : edge) : Q := inject_Z (Z.of_nat (weight e)).

(** [link.weight / maxWeight] with
    [maxWeight = filteredData ? Math.max(...edges.map(e => e.weight)) : 1];
    weights are counts.  No edge: the maximum is -Infinity and the quotient
    (minus) zero.  Maximum 0: 0/0 is NaN, anything else is Infinity. *)
Definition strength (filteredData : option networkData) (link : edge) : drawn :=
  match filteredData with
  | None => Finite (weightOf link / 1)
  | Some d =>
      match maxOf (weightOf <$> edges d) with
      | None => Finite 0
      | Some maxWeight =>
          if Qeq_bool maxWeight 0
          then (if Qeq_bool (weightOf link) 0 then Undefined else Infinite)
          else Finite (weightOf link / maxWeight)
      end
  end.

(** [(link.weight / maxWeight) * 3 + 0.5]. *)
Definition thickness (filteredData : option networkData) (link : edge) : drawn :=
  match strength filteredData link with
  | Finite s => Finite (s * 3 + (1 # 2))
  | Infinite => Infinite
  | Undefined => Undefined
  end.

(** [Math.floor(150 + strength * 105)]. *)
Definition colorIntensity (filteredData : option networkData) (link : edge) : drawn :=
  match strength filteredData link with
  | Finite s => Finite (inject_Z (Qfloor (150 + s * 105)))
  | Infinite => Infinite
  | Undefined => Undefined
  end.

(** *** Sample data with communities *)

Definition inCommunities (i : string) (cs : list Z) : node :=
  {| id := i; name := i; communities := cs; isFraud := false |}.

Definition ringGraph : networkData :=
  {| nodes := [inCommunities "Dr. A" [0; 1]%Z; inCommunities "Lawyer B" [1]%Z;
               inCommunities "Business C" [2]%Z; inCommunities "Driver D" []];
     edges := [mkEdge (EId "Dr. A") (EId "Lawyer B");
               mkEdge (EId "Lawyer B") (EId "Business C")] |}.

Definition ringView : networkData :=
  {| nodes := [inCommunities "Dr. A" [0; 1]%Z; inCommunities "Lawyer B" [1]%Z];
     edges := [mkEdge (EId "Dr. A") (EId "Lawyer B")] |}.

Definition sized (i : string) (risk exposure : Q) : measured :=
  {| shown := mkNode i; riskScore := risk; financialExposure := exposure |}.

Definition sizedNodes : list measured :=
  [sized "Dr. A" 90 80000; sized "Lawyer B" 45 30000; sized "Business C" 72 50000].

End NetworkView.

(** * Properties *)

(** ** Numbers and strings *)

Section JsFacts.

Lemma geb_ge (x : Js.num) (q : Q) : Js.geb x q = true <-> Js.ge x q.
Proof.
  destruct x as [|v]; simpl.
  - split; [discriminate | tauto].
  - apply Qle_bool_iff.
Qed.

Lemma geb_false (x : Js.num) (q : Q) : Js.geb x q = false <-> ~ Js.ge x q.
Proof.
  rewrite <- geb_ge. destruct (Js.geb x q); split; congruence.
Qed.

Lemma gtb_gt (x : Js.num) (q : Q) : Js.gtb x q = true <-> Js.gt x q.
Proof.
  destruct x as [|v]; simpl.
  - split; [discriminate | tauto].
  - rewrite negb_true_iff. split.
    + intros H. apply Qnot_le_lt. intros Hle.
      apply Qle_bool_iff in Hle. congruence.
    + intros H. destruct (Qle_bool v q) eqn:E; [|reflexivity].
      apply Qle_bool_iff in E. exfalso. revert E. now apply Qlt_not_le.
Qed.

Lemma ge_lt_cases (x : Js.num) (q : Q) : Js.ge x q \/ Js.lt x q \/ x = Js.NaN.
Proof.
  destruct x as [|v]; simpl; [tauto|].
  destruct (Qlt_le_dec v q); tauto.
Qed.

Lemma truthy_nonempty (s : string) : Js.truthy s = true <-> s <> EmptyString.
Proof. destruct s; simpl; split; congruence. Qed.

End JsFacts.

(** ** Risk colours *)

(** C10.  The three copies of getRiskColor (EntityList, EntityDetail and the
    EntityDetail stored in ClaimsTable.jsx) return the same class for every
    score: 'risk-high' exactly when score >= 85, 'risk-medium' exactly when
    70 <= score < 85 and 'risk-low' in every other case, so a score has
    exactly one class. *)
Theorem getRiskColor_copies_agree (score : Js.num) :
  EntityDetail.getRiskColor score = EntityList.getRiskColor score /\
  ClaimsTable.getRiskColor score = EntityList.getRiskColor score /\
  (EntityList.getRiskColor score = "risk-high" <-> Js.ge score 85) /\
  (EntityList.getRiskColor score = "risk-medium" <->
     Js.ge score 70 /\ Js.lt score 85) /\
  (EntityList.getRiskColor score = "risk-low" <->
     ~ Js.ge score 85 /\ ~ (Js.ge score 70 /\ Js.lt score 85)) /\
  (EntityList.getRiskColor score = "risk-high" \/
   EntityList.getRiskColor score = "risk-medium" \/
   EntityList.getRiskColor score = "risk-low").
Proof.
  split; [reflexivity|]. split; [reflexivity|].
  unfold EntityList.getRiskColor.
  pose proof (geb_ge score 85) as H85. pose proof (geb_ge score 70) as H70.
  pose proof (ge_lt_cases score 85) as Hc.
  assert (Hx : Js.ge score 85 -> Js.lt score 85 -> False).
  { destruct score as [|v]; simpl; [tauto|]. intros Hle Hlt.
    revert Hle. now apply Qlt_not_le. }
  assert (Hn : score = Js.NaN -> ~ Js.ge score 70) by (intros ->; simpl; tauto).
  assert (Hf : false = true -> False) by discriminate.
  assert (Ht : true = true) by reflexivity.
  destruct (Js.geb score 85); destruct (Js.geb score 70);
    (split; [|split; [|split]]); try (split; [try discriminate | ]);
    try tauto; try (intros ?; exfalso; tauto).
Qed.

(** ** Community statistics *)

Section CommunityStats.

Import CommunityAnalysisTable.

Implicit Types (stats : gmap Z stat) (m : member) (rows : list member).

Lemma visit_same stats m :
  visit stats m !! community_id m = Some (counted (stats !! community_id m) m).
Proof.
  unfold visit, counted.
  destruct (stats !! community_id m) as [s|] eqn:E; destruct (is_fraud m); simpl;
    repeat rewrite lookup_alter_eq; try rewrite lookup_insert_eq; rewrite ?E;
    reflexivity.
Qed.

Lemma visit_other stats m cid :
  cid <> community_id m -> visit stats m !! cid = stats !! cid.
Proof.
  intros Hne. unfold visit.
  destruct (stats !! community_id m) as [s|] eqn:E; destruct (is_fraud m); simpl;
    repeat (rewrite lookup_alter_ne by congruence);
    try (rewrite lookup_insert_ne by congruence); reflexivity.
Qed.

Lemma getCommunityStats_snoc rows m :
  getCommunityStats (rows ++ [m]) = visit (getCommunityStats rows) m.
Proof. unfold getCommunityStats. now rewrite foldl_app. Qed.

Lemma rows_of_snoc cid rows m :
  rows_of cid (rows ++ [m]) =
  rows_of cid rows ++ (if bool_decide (community_id m = cid) then [m] else []).
Proof. unfold rows_of. now rewrite List.filter_app. Qed.

(** The entry of a community counts its rows and its flagged rows; a
    community without rows has no entry. *)
Lemma getCommunityStats_lookup rows cid :
  getCommunityStats rows !! cid =
  match rows_of cid rows with
  | [] => None
  | _ :: _ => Some {| total := length (rows_of cid rows);
                      fraud := length (fraud_rows_of cid rows) |}
  end.
Proof.
  induction rows as [|m rows IH] using rev_ind; [reflexivity|].
  rewrite getCommunityStats_snoc. unfold fraud_rows_of in *.
  rewrite rows_of_snoc.
  destruct (decide (community_id m = cid)) as [<-|Hne].
  - rewrite bool_decide_eq_true_2 by reflexivity.
    rewrite visit_same, IH. unfold counted.
    rewrite List.filter_app, !length_app. simpl.
    destruct (rows_of (community_id m) rows) as [|r rs] eqn:E; simpl;
      destruct (is_fraud m); simpl; f_equal; f_equal; lia.
  - rewrite bool_decide_eq_false_2 by assumption.
    rewrite visit_other by congruence. now rewrite app_nil_r.
Qed.

End CommunityStats.

(** C3.  For every community and every list of member rows, the fraud ratio
    shown for the community is the number of its rows flagged as fraud
    divided by the number of its rows; a community with no row in the list
    gets the ratio 0 (and the counts 0/0) instead of a failure. *)
Theorem fraudRatio_is_flagged_over_total
    (communityMembers : list CommunityAnalysisTable.member) (cid : Z) :
  let stats := CommunityAnalysisTable.getCommunityStats communityMembers in
  let n := length (CommunityAnalysisTable.rows_of cid communityMembers) in
  let k := length (CommunityAnalysisTable.fraud_rows_of cid communityMembers) in
  CommunityAnalysisTable.fraudRatio stats cid =
    match n with
    | O => 0%Q
    | S _ => (inject_Z (Z.of_nat k) / inject_Z (Z.of_nat n))%Q
    end /\
  CommunityAnalysisTable.shownCounts stats cid = (k, n) /\
  (k <= n)%nat.
Proof.
  intros stats n k. subst stats n k.
  unfold CommunityAnalysisTable.fraudRatio, CommunityAnalysisTable.shownCounts.
  rewrite getCommunityStats_lookup.
  unfold CommunityAnalysisTable.fraud_rows_of.
  split; [|split].
  - destruct (CommunityAnalysisTable.rows_of cid communityMembers); reflexivity.
  - destruct (CommunityAnalysisTable.rows_of cid communityMembers); reflexivity.
  - apply List.filter_length_le.
Qed.

Example fraudRatio_two_of_three :
  let rows :=
    [ {| CommunityAnalysisTable.community_id := 1;
         CommunityAnalysisTable.entity_name := "Dr. A";
         CommunityAnalysisTable.is_fraud := true |};
      {| CommunityAnalysisTable.community_id := 2;
         CommunityAnalysisTable.entity_name := "Dr. A";
         CommunityAnalysisTable.is_fraud := true |};
      {| CommunityAnalysisTable.community_id := 1;
         CommunityAnalysisTable.entity_name := "Lawyer B";
         CommunityAnalysisTable.is_fraud := false |};
      {| CommunityAnalysisTable.community_id := 1;
         CommunityAnalysisTable.entity_name := "Business C";
         CommunityAnalysisTable.is_fraud := true |} ] in
  let stats := CommunityAnalysisTable.getCommunityStats rows in
  (CommunityAnalysisTable.fraudRatio stats 1 == 2 # 3)%Q /\
  (CommunityAnalysisTable.fraudRatio stats 2 == 1)%Q /\
  CommunityAnalysisTable.fraudRatio stats 7 = 0%Q.
Proof. vm_compute. repeat split; congruence. Qed.

(** ** Query parameters of the entity request *)

Section FilterParams.

Import App.

Implicit Type f : filters.

Ltac params_lookup :=
  unfold filterParams;
  repeat match goal with
         | |- context [if ?b then _ else _] => destruct b
         end;
  repeat (rewrite lookup_insert_ne by discriminate);
  rewrite ?lookup_insert_eq, ?lookup_empty; reflexivity.

Lemma filterParams_sort_by f :
  filterParams f !! "sort_by" =
  if Js.truthy (sort_by f) then Some (PStr (sort_by f)) else None.
Proof. params_lookup. Qed.

Lemma filterParams_filter_status f :
  filterParams f !! "filter_status" =
  if Js.truthy (filter_status f) && negb (String.eqb (filter_status f) "all")
  then Some (PStr (filter_status f)) else None.
Proof. params_lookup. Qed.

Lemma filterParams_min_risk_score f :
  filterParams f !! "min_risk_score" =
  if Js.gtb (min_risk_score f) 0 then Some (PNum (min_risk_score f)) else None.
Proof. params_lookup. Qed.

Lemma filterParams_entity_type f :
  filterParams f !! "entity_type" =
  if Js.truthy (entity_type f) && negb (String.eqb (entity_type f) "All Types")
  then Some (PStr (entity_type f)) else None.
Proof. params_lookup. Qed.

Lemma filterParams_no_other_key f (k : string) :
  is_Some (filterParams f !! k) ->
  k ∈ ["sort_by"; "filter_status"; "min_risk_score"; "entity_type"].
Proof.
  intros [v Hv].
  destruct (decide (k = "sort_by")) as [->|H1]; [set_solver|].
  destruct (decide (k = "filter_status")) as [->|H2]; [set_solver|].
  destruct (decide (k = "min_risk_score")) as [->|H3]; [set_solver|].
  destruct (decide (k = "entity_type")) as [->|H4]; [set_solver|].
  exfalso. revert Hv. unfold filterParams.
  repeat match goal with
         | |- context [if ?b then _ else _] => destruct b
         end;
    repeat (rewrite lookup_insert_ne by congruence);
    rewrite lookup_empty; discriminate.
Qed.

Lemma set_and_not (s lit : string) :
  Js.truthy s && negb (String.eqb s lit) = true <-> s <> EmptyString /\ s <> lit.
Proof.
  rewrite andb_true_iff, negb_true_iff, truthy_nonempty, String.eqb_neq.
  reflexivity.
Qed.

Lemma is_Some_if {A : Type} (b : bool) (x : A) :
  is_Some (if b then Some x else None) <-> b = true.
Proof.
  destruct b; split; intros H; try reflexivity; try discriminate; eauto.
  now destruct H.
Qed.

End FilterParams.

(** The contents of the query-parameter map for any record of filters, set
    or not: a key is present exactly when its guard in loadEntities holds,
    it carries the value of the filter state, and there is no other key. *)
Lemma filterParams_contents (f : App.filters) :
  let p := App.filterParams f in
  (is_Some (p !! "sort_by") <-> App.sort_by f <> EmptyString) /\
  (is_Some (p !! "filter_status") <->
     App.filter_status f <> EmptyString /\ App.filter_status f <> "all") /\
  (is_Some (p !! "min_risk_score") <-> Js.gt (App.min_risk_score f) 0) /\
  (is_Some (p !! "entity_type") <->
     App.entity_type f <> EmptyString /\ App.entity_type f <> "All Types") /\
  (forall v, p !! "sort_by" = Some v -> v = App.PStr (App.sort_by f)) /\
  (forall v, p !! "filter_status" = Some v -> v = App.PStr (App.filter_status f)) /\
  (forall v, p !! "min_risk_score" = Some v -> v = App.PNum (App.min_risk_score f)) /\
  (forall v, p !! "entity_type" = Some v -> v = App.PStr (App.entity_type f)) /\
  (forall k, is_Some (p !! k) ->
     k ∈ ["sort_by"; "filter_status"; "min_risk_score"; "entity_type"]).
Proof.
  intros p. subst p.
  rewrite filterParams_sort_by, filterParams_filter_status,
    filterParams_min_risk_score, filterParams_entity_type.
  rewrite !is_Some_if, !set_and_not, truthy_nonempty, gtb_gt.
  repeat split; try tauto.
  - intros v. destruct (Js.truthy _); congruence.
  - intros v. destruct (_ && _); congruence.
  - intros v. destruct (Js.gtb _ _); congruence.
  - intros v. destruct (_ && _); congruence.
  - apply filterParams_no_other_key.
Qed.

Section Reachable.

Import App FilterBar.

Lemma option_nonempty (v : string) (options : list string) :
  v ∈ options -> EmptyString ∉ options -> v <> EmptyString.
Proof. intros Hv Hn ->. contradiction. Qed.

Lemma statusOptions_nonempty : EmptyString ∉ statusOptions.
Proof.
  unfold statusOptions. rewrite !not_elem_of_cons.
  repeat split; try discriminate. apply not_elem_of_nil.
Qed.

Lemma entityTypeOptions_nonempty : EmptyString ∉ entityTypeOptions.
Proof.
  unfold entityTypeOptions. rewrite !not_elem_of_cons.
  repeat split; try discriminate. apply not_elem_of_nil.
Qed.

Lemma chosen_initial : chosen initialFilters.
Proof. split; constructor. Qed.

Lemma chosen_handleChange (f : filters) (c : change) :
  chosen f -> offered (BarChange c) -> chosen (handleChange f c).
Proof. intros [H1 H2] Hc. destruct c; split; simpl; assumption. Qed.

Lemma chosen_withSort (f : filters) (sort : string) :
  chosen f -> chosen (withSort f sort).
Proof. intros [H1 H2]. split; assumption. Qed.

Lemma chosen_step (st : ui) (ev : event) :
  chosen (appFilters st) /\ chosen (localFilters st) -> offered ev ->
  chosen (appFilters (step st ev)) /\ chosen (localFilters (step st ev)).
Proof.
  intros [Ha Hl] Hev. destruct ev as [c|sort]; simpl.
  - split; now apply chosen_handleChange.
  - split; [now apply chosen_withSort | assumption].
Qed.

Lemma chosen_run (evs : list event) (st : ui) :
  chosen (appFilters st) /\ chosen (localFilters st) -> Forall offered evs ->
  chosen (appFilters (run st evs)) /\ chosen (localFilters (run st evs)).
Proof.
  revert st. induction evs as [|ev evs IH]; intros st H Hevs; [assumption|].
  apply Forall_cons in Hevs as [Hev Hevs].
  change (run st (ev :: evs)) with (run (step st ev) evs).
  apply IH; [|assumption]. now apply chosen_step.
Qed.

Lemma chosen_reachable (f : filters) : reachable f -> chosen f.
Proof.
  intros (evs & Hevs & ->).
  apply (chosen_run evs (mount initialFilters)); [|assumption].
  split; apply chosen_initial.
Qed.

(** With status and type taken from the selects, the truthiness tests of
    loadEntities always pass and only the comparisons decide. *)
Lemma chosen_params_as_worded (f : filters) : chosen f -> params_as_worded f.
Proof.
  intros [Hs Ht].
  pose proof (option_nonempty _ _ Hs statusOptions_nonempty) as Hs'.
  pose proof (option_nonempty _ _ Ht entityTypeOptions_nonempty) as Ht'.
  unfold params_as_worded.
  rewrite filterParams_sort_by, filterParams_filter_status,
    filterParams_min_risk_score, filterParams_entity_type.
  rewrite !is_Some_if, !set_and_not, gtb_gt.
  repeat split; try tauto.
  intros ->. reflexivity.
Qed.

End Reachable.

(** C7.  For every filter state loadEntities is called with (the initial
    state of App, or the state App holds after any sequence of changes made
    with the controls of the filter bar and the sort buttons), the
    query-parameter map it builds contains sort_by whenever it is set,
    contains filter_status exactly when the selected status is not 'all',
    contains min_risk_score exactly when the minimum risk score is greater
    than 0, and contains entity_type exactly when the selected type is not
    'All Types'. *)
Theorem loadEntities_params_as_worded (f : App.filters) :
  FilterBar.reachable f -> App.params_as_worded f.
Proof. intros H. now apply chosen_params_as_worded, chosen_reachable. Qed.

Example filterParams_initial : App.filterParams App.initialFilters
  = {[ "sort_by" := App.PStr "ensemble_score" ]}.
Proof. reflexivity. Qed.

(** ** Search box *)

Section StringFacts.

Import JsString.

Implicit Types s t : jsstring.

Lemma startsWith_iff s t : startsWith s t = true <-> exists post, s = t ++ post.
Proof.
  revert s. induction t as [|d t IH]; intros s.
  - destruct s; simpl; split; eauto.
  - destruct s as [|c s]; simpl.
    + split; [discriminate | intros [post H]; discriminate].
    + rewrite andb_true_iff, N.eqb_eq, IH. split.
      * intros [-> [post ->]]. eauto.
      * intros [post H]. injection H as -> ->. eauto.
Qed.

Lemma includes_iff s t :
  includes s t = true <-> exists pre post, s = pre ++ t ++ post.
Proof.
  induction s as [|c s IH].
  - change (includes [] t) with (startsWith [] t || false).
    rewrite orb_false_r, startsWith_iff. split.
    + intros [post H]. exists [], post. exact H.
    + intros (pre & post & H). destruct pre; simpl in H; [eauto | discriminate].
  - change (includes (c :: s) t) with (startsWith (c :: s) t || includes s t).
    rewrite orb_true_iff, startsWith_iff, IH. split.
    + intros [[post H] | (pre & post & H)].
      * exists [], post. exact H.
      * exists (c :: pre), post. simpl. congruence.
    + intros (pre & post & H). destruct pre as [|d pre]; simpl in H.
      * left. eauto.
      * right. exists pre, post. congruence.
Qed.

Lemma is_space_whiteSpace (c : N) : is_space c = true <-> c ∈ whiteSpace.
Proof.
  unfold whiteSpace. rewrite !elem_of_cons, elem_of_nil. unfold is_space.
  repeat match goal with
         | |- context [(?a <=? ?b)%N] => destruct (N.leb_spec a b); simpl
         | |- context [(?a =? ?b)%N] => destruct (N.eqb_spec a b); simpl
         end;
    (split; [intros Hs; try discriminate Hs; lia | intros Hs; try reflexivity; lia]).
Qed.

Lemma blank_cons c s : blank (c :: s) <-> is_space c = true /\ blank s.
Proof. unfold blank. now rewrite Forall_cons, is_space_whiteSpace. Qed.

Lemma blank_nil : blank [] <-> True.
Proof. split; [trivial | intros _; constructor]. Qed.

Lemma trimStart_blank s : trimStart s = [] <-> blank s.
Proof.
  induction s as [|c s IH]; simpl; [now rewrite blank_nil|].
  rewrite blank_cons.
  destruct (is_space c); [rewrite IH; tauto|].
  split; [discriminate | intros [H _]; discriminate].
Qed.

Lemma trimEnd_blank s : trimEnd s = [] <-> blank s.
Proof.
  induction s as [|c s IH]; simpl; [now rewrite blank_nil|].
  rewrite blank_cons.
  destruct (trimEnd s) as [|d t].
  - destruct (is_space c).
    + tauto.
    + split; [discriminate | intros [H _]; discriminate].
  - split; [discriminate|]. intros [_ H]. apply IH in H. discriminate.
Qed.

Lemma trimStart_keeps_blank s : blank (trimStart s) <-> blank s.
Proof.
  induction s as [|c s IH]; simpl; [tauto|].
  destruct (is_space c) eqn:E; rewrite !blank_cons, ?E; [tauto|].
  tauto.
Qed.

Lemma trim_blank s : trim s = [] <-> blank s.
Proof. unfold trim. now rewrite trimEnd_blank, trimStart_keeps_blank. Qed.

(** The guard [search && search.trim()] is falsy exactly on blank input. *)
Lemma search_guard s :
  truthy s && truthy (trim s) = false <-> blank s.
Proof.
  rewrite andb_false_iff. rewrite <- trim_blank. split.
  - intros [H|H].
    + destruct s; [reflexivity | discriminate].
    + destruct (trim s); [reflexivity | discriminate].
  - intros ->. now right.
Qed.

(** On Basic Latin and Latin-1 text no sigma is met, and lower-casing works
    character by character. *)
Lemma lowerFrom_latin1 (afterCased : bool) s :
  latin1 s -> lowerFrom afterCased s = List.map lower_unit s.
Proof.
  revert afterCased. induction s as [|c s IH]; intros b H; [reflexivity|].
  apply Forall_cons in H as [Hc Hs]. simpl.
  destruct (N.eqb_spec c 931) as [->|_]; [lia|].
  f_equal. now apply IH.
Qed.

Lemma toLowerCase_latin1 s : latin1 s -> toLowerCase s = List.map lower_unit s.
Proof. apply lowerFrom_latin1. Qed.





End StringFacts.

Lemma filter_sublist {A : Type} (keep : A -> bool) (l : list A) :
  sublist (List.filter keep l) l.
Proof.
  induction l as [|x l IH]; simpl; [constructor|].
  destruct (keep x); now constructor.
Qed.



(** ** Ego network *)

Section EgoNetwork.

Import NetworkVisualization.

Implicit Types (data : networkData) (e : edge) (k : key) (s : list key).

Lemma has_elem_of s k : has s k = true <-> k ∈ s.
Proof. unfold has. apply bool_decide_eq_true. Qed.

Lemma elem_of_add s k k' : k ∈ add s k' <-> k ∈ s \/ k = k'.
Proof.
  unfold add. destruct (has s k') eqn:E.
  - apply has_elem_of in E. split; [tauto|]. intros [H| ->]; assumption.
  - rewrite elem_of_app, list_elem_of_singleton. reflexivity.
Qed.

Lemma elem_of_collect sel s e k :
  k ∈ collect sel s e <-> k ∈ s \/ reaches sel e k.
Proof.
  unfold collect, reaches.
  destruct (isSelected sel (source e)); destruct (isSelected sel (target e));
    rewrite ?elem_of_add; intuition congruence.
Qed.

Lemma elem_of_foldl_collect sel (es : list edge) s k :
  k ∈ foldl (collect sel) s es <->
  k ∈ s \/ exists e, e ∈ es /\ reaches sel e k.
Proof.
  revert s. induction es as [|e es IH]; intros s; simpl.
  - split; [tauto|]. intros [H|(e & He & _)]; [assumption|].
    now apply elem_of_nil in He.
  - rewrite IH, elem_of_collect. split.
    + intros [[H|H]|(e' & He' & H)].
      * now left.
      * right. exists e. split; [left | assumption].
      * right. exists e'. split; [now right | assumption].
    + intros [H|(e' & He' & H)]; [tauto|].
      apply elem_of_cons in He' as [->|He']; [tauto|].
      right. eauto.
Qed.

(** The collected set is the selection together with what its edges reach,
    whatever the data. *)
Lemma elem_of_connectedNodeIds data sel k :
  k ∈ connectedNodeIds data sel <->
  k = KStr sel \/ exists e, e ∈ edges data /\ reaches sel e k.
Proof.
  unfold connectedNodeIds. rewrite elem_of_foldl_collect, list_elem_of_singleton.
  reflexivity.
Qed.

Lemma isSelected_endId sel x : isSelected sel x = true <-> endId x = sel.
Proof. destruct x; simpl; apply String.eqb_eq. Qed.

Lemma idOr_named x : endId x <> EmptyString -> idOr x = KStr (endId x).
Proof.
  destruct x as [s|n]; simpl; [reflexivity|].
  intros H. apply truthy_nonempty in H. now rewrite H.
Qed.

Lemma elem_of_nodeIds data i : i ∈ nodeIds data <-> exists n, n ∈ nodes data /\ id n = i.
Proof.
  unfold nodeIds. rewrite list_elem_of_fmap. split; intros (n & H1 & H2); eauto.
Qed.

Lemma wellFormed_ends data e :
  wellFormed data -> e ∈ edges data ->
  idOr (source e) = KStr (endId (source e)) /\
  idOr (target e) = KStr (endId (target e)).
Proof.
  intros [Hn He] Hin. destruct (He e Hin) as [Hs Ht].
  apply elem_of_nodeIds in Hs as (n1 & Hn1 & E1).
  apply elem_of_nodeIds in Ht as (n2 & Hn2 & E2).
  split; apply idOr_named.
  - rewrite <- E1. now apply Hn.
  - rewrite <- E2. now apply Hn.
Qed.

(** In a well-formed dataset the collected names are the selection and the
    far ends of its edges. *)
Lemma connected_names data sel i :
  wellFormed data ->
  KStr i ∈ connectedNodeIds data sel <-> i = sel \/ sharesEdge data sel i.
Proof.
  intros Hwf. rewrite elem_of_connectedNodeIds. unfold sharesEdge, reaches.
  split.
  - intros [H|(e & He & H)]; [left; congruence|]. right. exists e.
    split; [assumption|].
    destruct (wellFormed_ends data e Hwf He) as [Es Et].
    rewrite Es, Et, !isSelected_endId in H.
    destruct H as [[H1 H2]|[H1 H2]]; [left | right]; split; congruence.
  - intros [->|(e & He & H)]; [now left|]. right. exists e.
    split; [assumption|].
    destruct (wellFormed_ends data e Hwf He) as [Es Et].
    rewrite Es, Et, !isSelected_endId.
    destruct H as [[H1 H2]|[H1 H2]]; [left | right]; split; congruence.
Qed.

(** The nodes kept are the listed nodes whose id was collected. *)
Lemma elem_of_ego_nodeIds data sel i :
  i ∈ nodeIds (egoData data sel) <->
  i ∈ nodeIds data /\ KStr i ∈ connectedNodeIds data sel.
Proof.
  rewrite !elem_of_nodeIds. unfold egoData. simpl. split.
  - intros (n & Hn & <-). apply list_elem_of_In, List.filter_In in Hn as [Hn Hh].
    apply has_elem_of in Hh. split; [|assumption].
    exists n. split; [now apply list_elem_of_In | reflexivity].
  - intros [(n & Hn & <-) Hc]. exists n. split; [|reflexivity].
    apply list_elem_of_In, List.filter_In. split; [now apply list_elem_of_In|].
    now apply has_elem_of.
Qed.

(** The edges kept are the edges with both ends collected. *)
Lemma elem_of_ego_edges data sel e :
  e ∈ edges (egoData data sel) <->
  e ∈ edges data /\
  idOr (source e) ∈ connectedNodeIds data sel /\
  idOr (target e) ∈ connectedNodeIds data sel.
Proof.
  unfold egoData. simpl.
  rewrite list_elem_of_In, List.filter_In, andb_true_iff, !has_elem_of,
    <- list_elem_of_In.
  reflexivity.
Qed.

End EgoNetwork.

(** C9 (as the code has it).  For every network dataset that is a graph
    (nodes carry a non-empty id, every edge joins two listed nodes) and every
    selected entity that is one of its nodes, the ego-mode graph is
    edge-closed: its nodes are the selected entity and exactly the entities
    sharing an edge with it, and every edge it keeps has both ends among
    these nodes. *)
Theorem egoData_edge_closed
    (data : NetworkVisualization.networkData) (selectedNodeId : string) :
  NetworkVisualization.wellFormed data ->
  selectedNodeId ∈ NetworkVisualization.nodeIds data ->
  NetworkVisualization.ego_closed data selectedNodeId.
Proof.
  intros Hwf Hsel. split.
  - intros i. rewrite elem_of_ego_nodeIds, connected_names by assumption.
    split; [tauto|]. intros H. split; [|assumption].
    destruct H as [->|(e & He & H)]; [assumption|].
    destruct Hwf as [_ Hends]. destruct (Hends e He) as [Hs Ht].
    destruct H as [[_ <-]|[_ <-]]; assumption.
  - intros e He. apply elem_of_ego_edges in He as (He & Hs & Ht).
    destruct (wellFormed_ends data e Hwf He) as [Es Et].
    rewrite Es in Hs. rewrite Et in Ht.
    destruct Hwf as [_ Hends]. destruct (Hends e He) as [Is It].
    split; apply elem_of_ego_nodeIds; split; assumption.
Qed.

Example egoData_sample :
  NetworkVisualization.nodeIds
    (NetworkVisualization.egoData NetworkVisualization.sampleGraph "Dr. A")
  = ["Dr. A"; "Lawyer B"; "Business C"] /\
  length (NetworkVisualization.edges
    (NetworkVisualization.egoData NetworkVisualization.sampleGraph "Dr. A")) = 3.
Proof. vm_compute. split; reflexivity. Qed.

Lemma sampleGraph_wellFormed :
  NetworkVisualization.wellFormed NetworkVisualization.sampleGraph.
Proof.
  split.
  - intros n Hn. simpl in Hn.
    repeat (apply elem_of_cons in Hn as [->|Hn]; [discriminate|]).
    now apply elem_of_nil in Hn.
  - intros e He. simpl in He.
    repeat (apply elem_of_cons in He as [->|He];
            [split; vm_compute; set_solver|]).
    now apply elem_of_nil in He.
Defined.

Lemma egoData_edge_closed_witness :
  NetworkVisualization.ego_closed NetworkVisualization.sampleGraph "Dr. A".
Proof.
  apply (egoData_edge_closed NetworkVisualization.sampleGraph "Dr. A").
  - exact sampleGraph_wellFormed.
  - vm_compute. set_solver.
Defined.

(** Read for every dataset and every selection, edge-closure fails: a
    selected entity that is not a node of the data is not in the filtered
    node set; an edge to an unlisted node is kept and dangles; a node
    object without a name is collected as an object and its node is not
    kept. *)
Lemma ego_closed_fails :
  ~ NetworkVisualization.ego_closed NetworkVisualization.sampleGraph "Nurse E" /\
  ~ NetworkVisualization.ego_closed NetworkVisualization.danglingGraph "Dr. A" /\
  ~ NetworkVisualization.ego_closed NetworkVisualization.namelessGraph "Dr. A".
Proof.
  split; [|split].
  - intros [H _]. specialize (H "Nurse E"). apply proj2 in H.
    specialize (H (or_introl eq_refl)). vm_compute in H.
    now apply elem_of_nil in H.
  - intros [_ H].
    specialize (H (NetworkVisualization.mkEdge
                     (NetworkVisualization.EId "Dr. A")
                     (NetworkVisualization.EId "Lawyer B"))).
    destruct H as [_ H].
    + vm_compute. set_solver.
    + vm_compute in H. apply elem_of_cons in H as [H|H]; [discriminate|].
      now apply elem_of_nil in H.
  - intros [H _]. specialize (H EmptyString). apply proj2 in H.
    assert (Hin : EmptyString ∈ NetworkVisualization.nodeIds
                    (NetworkVisualization.egoData
                       NetworkVisualization.namelessGraph "Dr. A")).
    { apply H. right.
      exists (NetworkVisualization.mkEdge
                (NetworkVisualization.ENode (NetworkVisualization.mkNode EmptyString))
                (NetworkVisualization.EId "Dr. A")).
      split; [vm_compute; set_solver|]. right. split; reflexivity. }
    vm_compute in Hin. apply elem_of_cons in Hin as [Hin|Hin]; [discriminate|].
    now apply elem_of_nil in Hin.
Qed.

(** ** Connections *)

Section Connections.

Import Pipeline.

Implicit Types (g : gmap (string * string) link) (p : string * string).

Lemma ltb_irrefl (a : string) : String.ltb a a = false.
Proof.
  unfold String.ltb. pose proof (String.compare_antisym a a) as H.
  destruct (String.compare a a); simpl in H; congruence.
Qed.

Lemma ltb_asym (a b : string) : String.ltb a b = true -> String.ltb b a = false.
Proof.
  unfold String.ltb. rewrite (String.compare_antisym a b).
  destruct (String.compare b a); simpl; congruence.
Qed.

Lemma ltb_neq (a b : string) : String.ltb a b = true -> a <> b.
Proof. intros H ->. rewrite ltb_irrefl in H. discriminate. Qed.

Lemma canonical_ordered (a b : string) :
  a <> b -> String.ltb (canonical a b).1 (canonical a b).2 = true.
Proof.
  intros Hne. unfold canonical. destruct (String.ltb a b) eqn:E; simpl; [assumption|].
  unfold String.ltb in *. rewrite (String.compare_antisym b a).
  destruct (String.compare a b) eqn:C; simpl; try reflexivity; try discriminate.
  apply String.compare_eq_iff in C. contradiction.
Qed.

Lemma pairs_of_claim_ordered (c : claim) p :
  p ∈ pairs_of_claim c -> String.ltb p.1 p.2 = true.
Proof.
  unfold pairs_of_claim. rewrite elem_of_remove_dups.
  intros H. apply list_elem_of_bind in H as (a & H & _).
  apply list_elem_of_bind in H as (b & H & _).
  destruct (decide (a = b)) as [|Hne].
  - now apply elem_of_nil in H.
  - apply list_elem_of_singleton in H as ->. now apply canonical_ordered.
Qed.

Lemma add_pair_ordered cn g p :
  String.ltb p.1 p.2 = true -> ordered g -> ordered (add_pair cn g p).
Proof.
  intros Hp Hg q l. unfold add_pair.
  destruct (g !! p) as [old|]; rewrite lookup_insert;
    case_decide; subst; eauto.
Qed.

Lemma foldl_add_pair_ordered cn (ps : list (string * string)) g :
  (forall p, p ∈ ps -> String.ltb p.1 p.2 = true) ->
  ordered g -> ordered (foldl (add_pair cn) g ps).
Proof.
  revert g. induction ps as [|p ps IH]; intros g Hps Hg; simpl; [assumption|].
  apply IH.
  - intros q Hq. apply Hps. now right.
  - apply add_pair_ordered; [apply Hps; now left | assumption].
Qed.

Lemma build_graph_ordered (cs : list claim) : ordered (build_graph cs).
Proof.
  unfold build_graph.
  assert (H : ordered (∅ : gmap (string * string) link)).
  { intros p l. rewrite lookup_empty. discriminate. }
  revert H. generalize (∅ : gmap (string * string) link).
  induction cs as [|c cs IH]; intros g Hg; simpl; [assumption|].
  apply IH. unfold add_claim.
  apply foldl_add_pair_ordered; [apply pairs_of_claim_ordered | assumption].
Qed.

Lemma connections_pairs (cs : list claim) :
  pair_of <$> connections cs = (map_to_list (build_graph cs)).*1.
Proof.
  unfold connections. rewrite <- list_fmap_compose.
  apply list_fmap_ext. intros i [[a b] l] _. reflexivity.
Qed.

Lemma elem_of_connections (cs : list claim) (r : Connection) :
  r ∈ connections cs ->
  exists l, build_graph cs !! pair_of r = Some l.
Proof.
  unfold connections. intros H.
  apply list_elem_of_fmap in H as ([[a b] l] & -> & H).
  apply elem_of_map_to_list in H. exists l. exact H.
Qed.

(** Among records with distinct keys, those that share one key are at most
    one. *)
Lemma filter_one_key {A K : Type} (f : A -> K) (P : A -> bool) (k0 : K)
    (l : list A) :
  NoDup (f <$> l) ->
  (forall x, x ∈ l -> P x = true -> f x = k0) ->
  (length (List.filter P l) <= 1)%nat.
Proof.
  induction l as [|x l IH]; intros Hnd Hk; simpl; [lia|].
  apply NoDup_cons in Hnd as [Hx Hnd].
  assert (Hk' : forall y, y ∈ l -> P y = true -> f y = k0).
  { intros y Hy. apply Hk. now right. }
  destruct (P x) eqn:Px; [|now apply IH].
  assert (Hnone : List.filter P l = []).
  { clear IH. induction l as [|y l IHl]; simpl; [reflexivity|].
    destruct (P y) eqn:Py.
    - exfalso. apply Hx. rewrite (Hk x) by (assumption || now left).
      rewrite <- (Hk' y) by (assumption || now left).
      simpl. now left.
    - apply IHl.
      + intros H. apply Hx. simpl. now right.
      + now apply NoDup_cons in Hnd as [_ ?].
      + intros z Hz. apply Hk.
        apply elem_of_cons in Hz as [->|Hz]; [now left|].
        right. now right.
      + intros z Hz. apply Hk'. now right. }
  rewrite Hnone. simpl. lia.
Qed.

(** The Connection table has one record per unordered pair at most, no
    record from an entity to itself, and every record has the smaller name as
    its source. *)
Lemma connections_canonical (cs : list claim) :
  (forall a b, (length (List.filter (joins a b) (connections cs)) <= 1)%nat) /\
  (forall r, r ∈ connections cs ->
     source_entity r <> target_entity r /\
     String.ltb (source_entity r) (target_entity r) = true).
Proof.
  assert (Hord : forall r, r ∈ connections cs ->
            String.ltb (source_entity r) (target_entity r) = true).
  { intros r Hr. apply elem_of_connections in Hr as [l Hl].
    apply (build_graph_ordered cs _ _ Hl). }
  split.
  - intros a b.
    apply (filter_one_key pair_of (joins a b)
             (if String.ltb a b then (a, b) else (b, a))).
    + rewrite connections_pairs. apply NoDup_fst_map_to_list.
    + intros r Hr Hj. specialize (Hord r Hr). unfold joins in Hj.
      apply orb_true_iff in Hj as [Hj|Hj]; apply bool_decide_eq_true in Hj;
        destruct Hj as [Hs Ht]; unfold pair_of; rewrite Hs, Ht in *.
      * now rewrite Hord.
      * now rewrite (ltb_asym _ _ Hord).
  - intros r Hr. split; [|now apply Hord]. apply ltb_neq. now apply Hord.
Qed.

End Connections.

Example scenario_connections :
  Pipeline.build_graph Pipeline.sample_claims !! ("Dr. A", "Lawyer B")
    = Some {| Pipeline.strength := 2;
              Pipeline.shared := ["WC-2024-001"; "WC-2024-002"] |} /\
  Pipeline.build_graph Pipeline.sample_claims !! ("Business C", "Dr. A")
    = Some {| Pipeline.strength := 1; Pipeline.shared := ["WC-2024-002"] |} /\
  Pipeline.build_graph Pipeline.sample_claims !! ("Business C", "Lawyer B")
    = Some {| Pipeline.strength := 1; Pipeline.shared := ["WC-2024-002"] |} /\
  Pipeline.build_graph Pipeline.sample_claims !! ("Lawyer B", "Dr. A") = None /\
  length (Pipeline.connections Pipeline.sample_claims) = 3%nat.
Proof. repeat split; lazy; reflexivity. Qed.

(** C4.  In every pipeline output there is at most one Connection record
    for every unordered pair of entities (A, B), no record has its source
    equal to its target, and every record is stored with the source
    lexicographically less than the target. *)
Theorem connection_table_canonical
    (cfg : Pipeline.config) (scorer : string -> Pipeline.centrality)
    (simulate : string -> Pipeline.unit_score)
    (input : option Pipeline.corpus) (src : Pipeline.source)
    (snap : Pipeline.snapshot) :
  Pipeline.run_pipeline cfg scorer simulate input src = Pipeline.Ok snap ->
  (forall a b,
     (length (List.filter (Pipeline.joins a b) (Pipeline.connection_table snap)) <= 1)%nat) /\
  (forall r, r ∈ Pipeline.connection_table snap ->
     Pipeline.source_entity r <> Pipeline.target_entity r /\
     String.ltb (Pipeline.source_entity r) (Pipeline.target_entity r) = true).
Proof.
  unfold Pipeline.run_pipeline. destruct input as [c|]; [|discriminate].
  destruct (Pipeline.load_external_scores _ _ _) as [ext|err]; simpl;
    [|discriminate].
  intros H. injection H as <-. simpl. apply connections_canonical.
Qed.

Lemma connection_table_canonical_witness :
  (length (List.filter (Pipeline.joins "Lawyer B" "Dr. A")
             (Pipeline.connections Pipeline.sample_claims)) <= 1)%nat /\
  Forall (fun r =>
            Pipeline.source_entity r <> Pipeline.target_entity r /\
            String.ltb (Pipeline.source_entity r) (Pipeline.target_entity r) = true)
         (Pipeline.connections Pipeline.sample_claims).
Proof.
  destruct (connection_table_canonical Pipeline.default_config
              Pipeline.no_centrality Pipeline.always_certain
              (Some Pipeline.sample_corpus) Pipeline.Absent
              {| Pipeline.entity_table :=
                   Pipeline.aggregate Pipeline.default_config Pipeline.no_centrality
                     (Pipeline.simulated_table Pipeline.always_certain
                        (Pipeline.claim_number <$> Pipeline.sample_claims))
                     Pipeline.sample_claims
                     <$> Pipeline.entity_roster Pipeline.sample_corpus;
                 Pipeline.connection_table :=
                   Pipeline.connections Pipeline.sample_claims;
                 Pipeline.score_table :=
                   Pipeline.simulated_table Pipeline.always_certain
                     (Pipeline.claim_number <$> Pipeline.sample_claims);
                 Pipeline.used_simulated_data := true |} eq_refl) as [H1 H2].
  split.
  - apply H1.
  - apply Forall_forall. exact H2.
Defined.

(** ** External signal *)

Section Loader.

Import Pipeline.

Local Open Scope R_scope.

Lemma simulated_table_lookup (simulate : string -> unit_score)
    (cns : list string) (cn : string) (x : R) :
  simulated_table simulate cns !! cn = Some x ->
  cn ∈ cns /\ x = proj1_sig (simulate cn).
Proof.
  unfold simulated_table. intros H. apply elem_of_list_to_map_2 in H.
  apply list_elem_of_fmap in H as (c & Heq & Hc).
  injection Heq as -> ->. split; [assumption | reflexivity].
Qed.

Lemma simulated_table_total (simulate : string -> unit_score)
    (cns : list string) (cn : string) :
  cn ∈ cns -> is_Some (simulated_table simulate cns !! cn).
Proof.
  intros Hin. unfold simulated_table.
  destruct (list_to_map _ !! cn) as [x|] eqn:E; [eauto|].
  exfalso. apply not_elem_of_list_to_map in E. apply E.
  rewrite <- list_fmap_compose. apply list_elem_of_fmap.
  exists cn. split; [reflexivity | assumption].
Qed.

Lemma simulated_table_bounded (simulate : string -> unit_score)
    (cns : list string) (cn : string) (x : R) :
  simulated_table simulate cns !! cn = Some x -> 0 <= x <= 1.
Proof.
  intros H. apply simulated_table_lookup in H as [_ ->].
  exact (proj2_sig (simulate cn)).
Qed.

End Loader.

(** C5.  When the external score source is absent or unreadable, the
    External Signal Loader still returns a score table and raises no error:
    every claim gets a simulated score, every score of the table lies in
    [0,1], the loader marks the data as simulated, and the run's output
    carries that mark together with the table. *)
Theorem missing_source_is_simulated
    (cfg : Pipeline.config) (scorer : string -> Pipeline.centrality)
    (simulate : string -> Pipeline.unit_score)
    (c : Pipeline.corpus) (src : Pipeline.source) :
  src = Pipeline.Absent \/ src = Pipeline.Unreadable ->
  exists ext snap,
    Pipeline.load_external_scores simulate
      (Pipeline.claim_number <$> Pipeline.claims c) src = Pipeline.Ok ext /\
    Pipeline.simulated ext = true /\
    (forall cl, cl ∈ Pipeline.claims c ->
       is_Some (Pipeline.scores ext !! Pipeline.claim_number cl)) /\
    (forall cn x, Pipeline.scores ext !! cn = Some x -> (0 <= x <= 1)%R) /\
    Pipeline.run_pipeline cfg scorer simulate (Some c) src = Pipeline.Ok snap /\
    Pipeline.used_simulated_data snap = true /\
    Pipeline.score_table snap = Pipeline.scores ext.
Proof.
  intros Hsrc.
  assert (Hload : Pipeline.load_external_scores simulate
            (Pipeline.claim_number <$> Pipeline.claims c) src =
          Pipeline.Ok
            {| Pipeline.scores :=
                 Pipeline.simulated_table simulate
                   (Pipeline.claim_number <$> Pipeline.claims c);
               Pipeline.simulated := true;
               Pipeline.skipped := 0 |}).
  { destruct Hsrc as [-> | ->]; reflexivity. }
  eexists. eexists. split; [exact Hload|].
  split; [reflexivity|]. split; [|split; [|split; [|split]]].
  - intros cl Hcl. simpl. apply simulated_table_total.
    apply list_elem_of_fmap. eauto.
  - intros cn x. simpl. apply simulated_table_bounded.
  - unfold Pipeline.run_pipeline. rewrite Hload. reflexivity.
  - reflexivity.
  - reflexivity.
Qed.

Lemma missing_source_is_simulated_witness :
  exists ext snap,
    Pipeline.load_external_scores Pipeline.always_certain
      (Pipeline.claim_number <$> Pipeline.claims Pipeline.sample_corpus)
      Pipeline.Absent = Pipeline.Ok ext /\
    Pipeline.simulated ext = true /\
    (forall cl, cl ∈ Pipeline.claims Pipeline.sample_corpus ->
       is_Some (Pipeline.scores ext !! Pipeline.claim_number cl)) /\
    (forall cn x, Pipeline.scores ext !! cn = Some x -> (0 <= x <= 1)%R) /\
    Pipeline.run_pipeline Pipeline.default_config Pipeline.no_centrality
      Pipeline.always_certain (Some Pipeline.sample_corpus) Pipeline.Absent
      = Pipeline.Ok snap /\
    Pipeline.used_simulated_data snap = true /\
    Pipeline.score_table snap = Pipeline.scores ext.
Proof.
  apply (missing_source_is_simulated Pipeline.default_config
           Pipeline.no_centrality Pipeline.always_certain
           Pipeline.sample_corpus Pipeline.Absent).
  left. reflexivity.
Defined.

(** ** Aggregation *)

Section Aggregator.

Import Pipeline.

Local Open Scope R_scope.

Lemma sum_zero (l : list R) : (forall x, x ∈ l -> x = 0) -> sum l = 0.
Proof.
  induction l as [|x l IH]; intros H; simpl; [reflexivity|].
  rewrite (H x) by now left. rewrite IH; [lra|].
  intros y Hy. apply H. now right.
Qed.

Lemma average_zero (l : list R) : (forall x, x ∈ l -> x = 0) -> average l = 0.
Proof.
  intros H. destruct l as [|x l]; [reflexivity|].
  unfold average. rewrite (sum_zero _ H). unfold Rdiv. lra.
Qed.


Lemma external_composite_none : external_composite [] = 0.
Proof. unfold external_composite. simpl. lra. Qed.

Lemma external_composite_no_signal (l : list (option R)) :
  (forall s, s ∈ l -> contribution s = 0) -> external_composite l = 0.
Proof.
  intros H. unfold external_composite. rewrite average_zero; [lra|].
  intros x Hx. apply list_elem_of_fmap in Hx as (s & -> & Hs). now apply H.
Qed.

(** The ensemble under any weights, and what the weights must add up to for
    a full score. *)
Lemma ensemble_zero (cfg : config) : ensemble cfg 0 0 = 0.
Proof.
  unfold ensemble, Rmin. destruct (Rle_dec 0 1); [|lra]. unfold Rdiv. lra.
Qed.

Lemma ensemble_full (cfg : config) :
  w_social cfg + w_ext cfg = 1 -> ensemble cfg 100 1 = 100.
Proof.
  intros H. unfold ensemble, Rmin. destruct (Rle_dec 1 1); [|lra].
  replace (100 / 100) with 1 by lra. nra.
Qed.

(** The formula printed in the project notes has no cap on the external
    score: it is the ensemble of the default weights as long as the external
    composite stays at or below 1, and exceeds it beyond. *)
Lemma ensemble_in_notes_agrees (social composite : R) :
  composite <= 1 ->
  ensemble_in_notes social composite = ensemble default_config social composite.
Proof.
  intros H. unfold ensemble_in_notes, ensemble, Rmin. simpl.
  destruct (Rle_dec composite 1); lra.
Qed.

Lemma ensemble_in_notes_uncapped (social composite : R) :
  1 < composite ->
  ensemble default_config social composite < ensemble_in_notes social composite.
Proof.
  intros H. unfold ensemble_in_notes, ensemble, Rmin. simpl.
  destruct (Rle_dec composite 1); lra.
Qed.

Lemma claim_scores_zero (tbl : gmap string R) (cs : list claim) :
  (forall c, c ∈ cs -> contribution (tbl !! claim_number c) = 0) ->
  forall s, s ∈ claim_scores tbl cs -> contribution s = 0.
Proof.
  intros H s Hs. unfold claim_scores in Hs.
  apply list_elem_of_fmap in Hs as (c & -> & Hc). now apply H.
Qed.



Lemma ln_2_neq_0 : ln 2 <> 0.
Proof.
  assert (H : 0 < ln 2); [|lra].
  rewrite <- ln_1. apply ln_increasing; lra.
Qed.

End Aggregator.

(** C1.  For every entity the ensemble risk score is
    100 x (w_social . social_network_score/100 + w_ext . min(external
    composite, 1)) with the default weights 0.6 and 0.4.  An entity with
    zero network centrality and zero external signal has the score 0, and an
    entity with social_network_score = 100 and external composite = 1 has
    the score 100. *)
Theorem ensemble_score_formula
    (scorer : string -> Pipeline.centrality) (tbl : gmap string R)
    (cs : list Pipeline.claim) (e : string) :
  let r := Pipeline.aggregate Pipeline.default_config scorer tbl cs e in
  Pipeline.ensemble_score r =
    (100 * (6 / 10 * (Pipeline.social_network_score r / 100) +
            4 / 10 * Rmin (Pipeline.composite_external_score r) 1))%R /\
  (Pipeline.degree (scorer e) = 0%R ->
   Pipeline.betweenness (scorer e) = 0%R ->
   Pipeline.eigenvector (scorer e) = 0%R ->
   (forall c, c ∈ Pipeline.claims_of e cs ->
      Pipeline.contribution (tbl !! Pipeline.claim_number c) = 0%R) ->
   Pipeline.ensemble_score r = 0%R) /\
  (Pipeline.social_network_score r = 100%R ->
   Pipeline.composite_external_score r = 1%R ->
   Pipeline.ensemble_score r = 100%R).
Proof.
  intros r. subst r. simpl. split; [reflexivity|]. split.
  - intros Hd Hb He Hext.
    unfold Pipeline.social_score. rewrite Hd, Hb, He.
    rewrite external_composite_no_signal
      by (apply claim_scores_zero; exact Hext).
    replace (100 * (Pipeline.w_degree Pipeline.default_config * 0 +
                    Pipeline.w_betweenness Pipeline.default_config * 0 +
                    Pipeline.w_eigenvector Pipeline.default_config * 0))%R
      with 0%R by lra.
    apply ensemble_zero.
  - intros -> ->. apply ensemble_full. simpl. lra.
Qed.


Lemma sample_claims_of_business :
  Pipeline.claims_of "Business C" Pipeline.sample_claims = [Pipeline.sample_claim_2].
Proof. lazy. reflexivity. Defined.


Lemma sample_composite_business :
  Pipeline.external_composite
    (Pipeline.claim_scores Pipeline.sample_scores [Pipeline.sample_claim_2]) = 1%R.
Proof.
  unfold Pipeline.claim_scores, Pipeline.sample_scores. simpl.
  rewrite lookup_singleton_eq.
  unfold Pipeline.external_composite, Pipeline.average, Pipeline.sum. simpl.
  replace (1 + 1)%R with 2%R by lra.
  field. apply ln_2_neq_0.
Defined.

Lemma ensemble_score_formula_witness :
  Pipeline.ensemble_score
    (Pipeline.aggregate Pipeline.default_config Pipeline.no_centrality ∅
       Pipeline.sample_claims "Dr. A") = 0%R /\
  Pipeline.ensemble_score
    (Pipeline.aggregate Pipeline.default_config Pipeline.full_centrality
       Pipeline.sample_scores Pipeline.sample_claims "Business C") = 100%R.
Proof.
  split.
  - destruct (ensemble_score_formula Pipeline.no_centrality ∅
                Pipeline.sample_claims "Dr. A") as (_ & H & _).
    apply H; reflexivity.
  - destruct (ensemble_score_formula Pipeline.full_centrality
                Pipeline.sample_scores Pipeline.sample_claims "Business C")
      as (_ & _ & H).
    apply H.
    + simpl. unfold Pipeline.social_score. simpl. lra.
    + unfold Pipeline.aggregate. cbn [Pipeline.composite_external_score].
      rewrite sample_claims_of_business.
      apply sample_composite_business.
Defined.


Example toLowerCase_sample :
  JsString.toLowerCase (JsString.text "Dr. RODRIGUEZ") = JsString.text "dr. rodriguez" /\
  JsString.trim (JsString.text "  Dr. A  ") = JsString.text "Dr. A" /\
  JsString.includes (JsString.text "dr. michael rodriguez") (JsString.text "rodri") = true /\
  JsString.includes (JsString.text "lawyer b") (JsString.text "rodri") = false.
Proof. repeat split; reflexivity. Qed.

(** Sigma at the end of a word, inside a word, and alone. *)
Example toLowerCase_sigma :
  JsString.toLowerCase [913; 931]%N = [945; 962]%N /\
  JsString.toLowerCase [913; 931; 913]%N = [945; 963; 945]%N /\
  JsString.toLowerCase [931]%N = [963]%N /\
  App.applyClientSideFilters [App.alphaSigma] App.searchingSigma = [].
Proof. repeat split; reflexivity. Qed.

Example applyClientSideFilters_sample :
  App.applyClientSideFilters App.sampleEntities (App.searching "rOdRi")
  = [App.sampleEntity "Dr. Michael Rodriguez"; App.sampleEntity "RODRIGO Imports"].
Proof. vm_compute. reflexivity. Qed.

Lemma loadEntities_params_as_worded_witness :
  App.params_as_worded
    (FilterBar.appFilters
       (FilterBar.run (FilterBar.mount App.initialFilters)
          [FilterBar.SortChange "total_exposure";
           FilterBar.BarChange (FilterBar.FilterStatus "Cleared");
           FilterBar.BarChange (FilterBar.MinRiskScore (Js.Num 40));
           FilterBar.BarChange (FilterBar.EntityType "Doctor");
           FilterBar.BarChange (FilterBar.FilterStatus "all")])).
Proof.
  apply loadEntities_params_as_worded.
  eexists. split; [|reflexivity].
  repeat (apply Forall_cons; split; [simpl; try exact I; repeat constructor|]).
  apply Forall_nil_2.
Defined.


Example scenario_exposure :
  let r := Pipeline.aggregate Pipeline.default_config Pipeline.no_centrality ∅
             Pipeline.sample_claims "Dr. A" in
  Pipeline.connected_claims_count r = 2%nat /\
  Pipeline.total_exposure r = 80000%R.
Proof.
  assert (H : Pipeline.claims_of "Dr. A" Pipeline.sample_claims
              = Pipeline.sample_claims) by (lazy; reflexivity).
  unfold Pipeline.aggregate.
  cbn [Pipeline.connected_claims_count Pipeline.total_exposure].
  rewrite H. split; [reflexivity|].
  unfold Pipeline.sample_claims, Pipeline.sum. simpl. lra.
Qed.

(** * Further properties of the dashboard code *)

(** ** Community statistics, continued *)

Section CommunityStatsMore.

Import CommunityAnalysisTable.

Implicit Types (rows : list member) (cid : Z).

Lemma ratio_of_le (k n : nat) (a : Z) (b : positive) :
  (0 < n)%nat ->
  (ratio_of k n <= a # b)%Q <-> (Z.of_nat k * Zpos b <= a * Z.of_nat n)%Z.
Proof.
  intros Hn. destruct n as [|m]; [lia|].
  unfold ratio_of, Qle, Qdiv, Qmult, Qinv. simpl.
  rewrite Pos2Z.inj_mul. change (Zpos 1) with 1%Z.
  rewrite Zpos_P_of_succ_nat. lia.
Qed.

Lemma ratio_of_ge (k n : nat) (a : Z) (b : positive) :
  (0 < n)%nat ->
  (a # b <= ratio_of k n)%Q <-> (a * Z.of_nat n <= Z.of_nat k * Zpos b)%Z.
Proof.
  intros Hn. destruct n as [|m]; [lia|].
  unfold ratio_of, Qle, Qdiv, Qmult, Qinv. simpl.
  rewrite Pos2Z.inj_mul. change (Zpos 1) with 1%Z.
  rewrite Zpos_P_of_succ_nat. lia.
Qed.

Lemma fraud_rows_le rows cid :
  (length (fraud_rows_of cid rows) <= length (rows_of cid rows))%nat.
Proof. unfold fraud_rows_of. apply List.filter_length_le. Qed.

Lemma fraudRatio_counts rows cid :
  fraudRatio (getCommunityStats rows) cid =
  match rows_of cid rows with
  | [] => 0%Q
  | _ :: _ => ratio_of (length (fraud_rows_of cid rows)) (length (rows_of cid rows))
  end.
Proof.
  unfold fraudRatio. rewrite getCommunityStats_lookup.
  destruct (rows_of cid rows); reflexivity.
Qed.

End CommunityStatsMore.

(** X1.  The fraud ratio shown for a community is a proportion: whatever the
    member rows and the community, it lies between 0 and 1. *)
Theorem fraudRatio_is_proportion
    (communityMembers : list CommunityAnalysisTable.member) (cid : Z) :
  (0 <= CommunityAnalysisTable.fraudRatio
          (CommunityAnalysisTable.getCommunityStats communityMembers) cid <= 1)%Q.
Proof.
  rewrite fraudRatio_counts.
  pose proof (fraud_rows_le communityMembers cid) as Hle.
  destruct (CommunityAnalysisTable.rows_of cid communityMembers) as [|r rs] eqn:E.
  - split; discriminate.
  - split.
    + apply (ratio_of_ge _ _ 0 1); simpl; lia.
    + apply (ratio_of_le _ _ 1 1); simpl in *; lia.
Qed.

Section CommunityStatsOrder.

Import CommunityAnalysisTable.

Lemma filter_length_Permutation {A : Type} (keep : A -> bool) (l l' : list A) :
  l ≡ₚ l' -> length (List.filter keep l) = length (List.filter keep l').
Proof.
  induction 1 as [|x l l' _ IH|x y l|l l' l'' _ IH1 _ IH2]; simpl.
  - reflexivity.
  - destruct (keep x); simpl; congruence.
  - destruct (keep x); destruct (keep y); reflexivity.
  - congruence.
Qed.

Lemma rows_of_nil_Permutation (cid : Z) (l l' : list member) :
  l ≡ₚ l' -> rows_of cid l = [] -> rows_of cid l' = [].
Proof.
  intros HP H. apply length_zero_iff_nil.
  unfold rows_of in *. rewrite <- (filter_length_Permutation _ _ _ HP), H.
  reflexivity.
Qed.

Lemma counted_rows_visit (stats : gmap Z stat) (m : member) :
  CommunityBadge.counted_rows (visit stats m) = S (CommunityBadge.counted_rows stats).
Proof.
  unfold CommunityBadge.counted_rows.
  assert (Hcomm : forall (mp : gmap Z stat) (j1 j2 : Z) (z1 z2 : stat) (y : nat),
            j1 <> j2 -> mp !! j1 = Some z1 -> mp !! j2 = Some z2 ->
            (total z1 + (total z2 + y) = total z2 + (total z1 + y))%nat)
    by (intros; lia).
  assert (Hv : visit stats m =
               <[community_id m := counted (stats !! community_id m) m]>
                 (delete (community_id m) stats)).
  { apply map_eq. intros cid.
    destruct (decide (cid = community_id m)) as [->|Hne].
    - now rewrite visit_same, lookup_insert_eq.
    - rewrite visit_other by assumption.
      rewrite lookup_insert_ne by congruence.
      now rewrite lookup_delete_ne by congruence. }
  rewrite Hv.
  rewrite map_fold_insert_L; [| apply Hcomm | apply lookup_delete_eq].
  destruct (stats !! community_id m) as [s|] eqn:E.
  - rewrite (map_fold_delete_L _ _ (community_id m) s stats); [| apply Hcomm | exact E].
    unfold counted. simpl. lia.
  - rewrite delete_id by exact E. unfold counted. simpl. lia.
Qed.

End CommunityStatsOrder.

(** X2.  The statistics do not depend on the order of the member rows: two
    lists with the same rows in any order give the same stats object. *)
Theorem getCommunityStats_order_irrelevant
    (rows rows' : list CommunityAnalysisTable.member) :
  rows ≡ₚ rows' ->
  CommunityAnalysisTable.getCommunityStats rows =
  CommunityAnalysisTable.getCommunityStats rows'.
Proof.
  intros HP. apply map_eq. intros cid.
  rewrite !getCommunityStats_lookup.
  unfold CommunityAnalysisTable.fraud_rows_of.
  destruct (CommunityAnalysisTable.rows_of cid rows) as [|r rs] eqn:E.
  - now rewrite (rows_of_nil_Permutation cid rows rows' HP E).
  - destruct (CommunityAnalysisTable.rows_of cid rows') as [|r' rs'] eqn:E'.
    + symmetry in HP.
      rewrite (rows_of_nil_Permutation cid rows' rows HP E') in E. discriminate.
    + rewrite <- E, <- E'. f_equal.
      assert (HP' : CommunityAnalysisTable.rows_of cid rows ≡ₚ
                    CommunityAnalysisTable.rows_of cid rows').
      { unfold CommunityAnalysisTable.rows_of.
        clear E E'. induction HP; simpl.
        - reflexivity.
        - destruct (bool_decide _); [constructor|]; assumption.
        - destruct (bool_decide _); destruct (bool_decide _);
            try reflexivity. apply perm_swap.
        - etransitivity; eassumption. }
      f_equal.
      * now apply Permutation_length.
      * now apply filter_length_Permutation.
Qed.

Lemma getCommunityStats_order_irrelevant_witness :
  CommunityAnalysisTable.getCommunityStats
    [ {| CommunityAnalysisTable.community_id := 1;
         CommunityAnalysisTable.entity_name := "Dr. A";
         CommunityAnalysisTable.is_fraud := true |};
      {| CommunityAnalysisTable.community_id := 2;
         CommunityAnalysisTable.entity_name := "Lawyer B";
         CommunityAnalysisTable.is_fraud := false |} ] =
  CommunityAnalysisTable.getCommunityStats
    [ {| CommunityAnalysisTable.community_id := 2;
         CommunityAnalysisTable.entity_name := "Lawyer B";
         CommunityAnalysisTable.is_fraud := false |};
      {| CommunityAnalysisTable.community_id := 1;
         CommunityAnalysisTable.entity_name := "Dr. A";
         CommunityAnalysisTable.is_fraud := true |} ].
Proof.
  apply getCommunityStats_order_irrelevant. apply perm_swap.
Defined.

(** X3.  Every member row is counted exactly once: the totals of all
    entries of the stats object add up to the number of rows. *)
Theorem getCommunityStats_counts_every_row
    (communityMembers : list CommunityAnalysisTable.member) :
  CommunityBadge.counted_rows
    (CommunityAnalysisTable.getCommunityStats communityMembers)
  = length communityMembers.
Proof.
  induction communityMembers as [|m rows IH] using rev_ind.
  - reflexivity.
  - rewrite getCommunityStats_snoc, counted_rows_visit, IH, length_app.
    simpl. lia.
Qed.

(** X4.  The badge of a community follows from its counts: with [n] rows of
    which [k] are flagged, it is red exactly when [k/n > 0.6] (that is
    [5k > 3n]), yellow exactly when [0.3 < k/n <= 0.6], and green otherwise;
    a community without rows is green. *)
Theorem community_badge_by_counts
    (communityMembers : list CommunityAnalysisTable.member) (cid : Z) :
  let stats := CommunityAnalysisTable.getCommunityStats communityMembers in
  let n := Z.of_nat (length (CommunityAnalysisTable.rows_of cid communityMembers)) in
  let k := Z.of_nat (length (CommunityAnalysisTable.fraud_rows_of cid communityMembers)) in
  (CommunityBadge.badge stats cid = "badge-red" <-> (3 * n < 5 * k)%Z) /\
  (CommunityBadge.badge stats cid = "badge-yellow" <->
     (3 * n < 10 * k)%Z /\ (5 * k <= 3 * n)%Z) /\
  (CommunityBadge.badge stats cid = "badge-green" <-> (10 * k <= 3 * n)%Z).
Proof.
  intros stats n k. subst stats n k.
  unfold CommunityBadge.badge, CommunityBadge.getRiskColor.
  rewrite fraudRatio_counts.
  pose proof (fraud_rows_le communityMembers cid) as Hle.
  destruct (CommunityAnalysisTable.rows_of cid communityMembers) as [|r rs] eqn:E.
  - simpl in *. repeat split; try discriminate; try lia.
  - set (kk := length (CommunityAnalysisTable.fraud_rows_of cid communityMembers)) in *.
    set (nn := length (r :: rs)) in *.
    assert (Hn : (0 < nn)%nat) by (subst nn; simpl; lia).
    pose proof (ratio_of_le kk nn 6 10 Hn) as H6.
    pose proof (ratio_of_le kk nn 3 10 Hn) as H3.
    rewrite <- Qle_bool_iff in H6, H3.
    destruct (Qle_bool (CommunityAnalysisTable.ratio_of kk nn) (6 # 10));
      destruct (Qle_bool (CommunityAnalysisTable.ratio_of kk nn) (3 # 10));
      simpl; repeat split; try discriminate; try lia;
      try (intros _; destruct H6 as [H6a H6b]; destruct H3 as [H3a H3b];
           try (specialize (H6a eq_refl)); try (specialize (H3a eq_refl)); lia);
      try (intros ?; exfalso;
           destruct H6 as [H6a H6b]; destruct H3 as [H3a H3b];
           try (specialize (H6a eq_refl)); try (specialize (H3a eq_refl));
           try (assert (false = true) by (apply H6b; lia); discriminate);
           try (assert (false = true) by (apply H3b; lia); discriminate); lia).
Qed.

(** ** Filter state *)

Section FilterState.

Import App FilterBar.

Lemma in_step_mount (f0 : filters) : in_step f0 (mount f0).
Proof. repeat split. Qed.

Lemma in_step_step (f0 : filters) (st : ui) (ev : event) :
  in_step f0 st -> in_step f0 (step st ev).
Proof.
  intros (H1 & H2 & H3 & H4 & H5).
  destruct ev as [[v|v|v|v]|sort]; repeat split; simpl; assumption.
Qed.

Lemma in_step_run (f0 : filters) (evs : list event) (st : ui) :
  in_step f0 st -> in_step f0 (run st evs).
Proof.
  revert st. induction evs as [|ev evs IH]; intros st H; simpl; [assumption|].
  apply IH. now apply in_step_step.
Qed.

Lemma filterParams_same_request (f f' : filters) :
  same_request f f' -> filterParams f = filterParams f'.
Proof.
  intros (H1 & H2 & H3 & H4). unfold filterParams.
  now rewrite H1, H2, H3, H4.
Qed.

Lemma same_request_handleChange (f f' : filters) (c : change) :
  same_request f f' -> same_request (handleChange f c) (handleChange f' c).
Proof.
  intros (H1 & H2 & H3 & H4). destruct c; repeat split; simpl; assumption.
Qed.

Lemma same_request_step (st st' : ui) (ev : event) :
  same_request (localFilters st) (localFilters st') ->
  same_request (localFilters (step st ev)) (localFilters (step st' ev)).
Proof.
  intros H. destruct ev as [c|sort]; simpl; [|assumption].
  now apply same_request_handleChange.
Qed.

Lemma same_request_typed (st st' : ui) (text : JsString.jsstring) :
  same_request (localFilters st) (localFilters st') ->
  same_request (localFilters (step st (BarChange (Search text)))) (localFilters st').
Proof. intros (H1 & H2 & H3 & H4). repeat split; simpl; assumption. Qed.

Lemma same_request_run (evs : list event) (st st' : ui) :
  same_request (localFilters st) (localFilters st') ->
  same_request (localFilters (run st evs)) (localFilters (run st' (dropSearch evs))).
Proof.
  revert st st'. induction evs as [|ev evs IH]; intros st st' H; [assumption|].
  change (run st (ev :: evs)) with (run (step st ev) evs).
  destruct (isSearch ev) eqn:E.
  - assert (Hd : dropSearch (ev :: evs) = dropSearch evs)
      by (unfold dropSearch; simpl; now rewrite E).
    rewrite Hd. apply IH.
    destruct ev as [[v|v|v|v]|sort]; try discriminate.
    now apply same_request_typed.
  - assert (Hd : dropSearch (ev :: evs) = ev :: dropSearch evs)
      by (unfold dropSearch; simpl; now rewrite E).
    rewrite Hd.
    change (run st' (ev :: dropSearch evs)) with (run (step st' ev) (dropSearch evs)).
    apply IH. now apply same_request_step.
Qed.

End FilterState.

(** X5.  The search text never reaches the server: the query parameters
    sent on a change in the filter bar are the same whatever was typed in the
    search box before; leaving the earlier search changes out of the history
    gives the same request. *)
Theorem search_text_never_sent
    (f0 : App.filters) (evs : list FilterBar.event) (c : FilterBar.change) :
  App.filterParams
    (FilterBar.appFilters
       (FilterBar.step (FilterBar.run (FilterBar.mount f0) evs)
          (FilterBar.BarChange c)))
  = App.filterParams
      (FilterBar.appFilters
         (FilterBar.step
            (FilterBar.run (FilterBar.mount f0) (FilterBar.dropSearch evs))
            (FilterBar.BarChange c))).
Proof.
  apply filterParams_same_request. simpl.
  apply same_request_handleChange.
  apply same_request_run. repeat split.
Qed.

(** X6.  FilterBar keeps its own copy of the filters and never learns of a
    sort change.  After any sequence of bar changes and sort changes, a
    further change in the bar hands App the sort key FilterBar was mounted
    with (the sort chosen with the buttons is lost), while a sort change
    keeps status, minimum score, type and search as the bar last set
    them. *)
Theorem bar_change_resets_sort
    (f0 : App.filters) (evs : list FilterBar.event)
    (c : FilterBar.change) (sort : string) :
  let st := FilterBar.run (FilterBar.mount f0) evs in
  App.sort_by (FilterBar.appFilters (FilterBar.step st (FilterBar.BarChange c)))
    = App.sort_by f0 /\
  FilterBar.appFilters (FilterBar.step st (FilterBar.SortChange sort))
    = FilterBar.withSort (FilterBar.localFilters st) sort.
Proof.
  intros st.
  pose proof (in_step_run f0 evs _ (in_step_mount f0)) as (H1 & H2 & H3 & H4 & H5).
  fold st in H1, H2, H3, H4, H5. split.
  - destruct c; simpl; exact H1.
  - simpl. unfold FilterBar.withSort. now rewrite H2, H3, H4, H5.
Qed.

Example sort_is_lost :
  App.sort_by
    (FilterBar.appFilters
       (FilterBar.run (FilterBar.mount App.initialFilters)
          [FilterBar.SortChange "total_exposure";
           FilterBar.BarChange (FilterBar.FilterStatus "Cleared")]))
  = "ensemble_score".
Proof. reflexivity. Qed.

(** ** Search box, continued *)

Section SearchMore.

Import JsString.

Lemma blank_append (s t : jsstring) : blank (s ++ t) <-> blank s /\ blank t.
Proof. unfold blank. apply Forall_app. Qed.

Lemma includes_inner (name a s b : jsstring) :
  includes name (a ++ s ++ b) = true -> includes name s = true.
Proof.
  rewrite !includes_iff. intros (pre & post & ->).
  exists (pre ++ a), (b ++ post).
  now rewrite <- !app_assoc.
Qed.

(** Lower-casing text of Basic Latin and Latin-1 characters piece by piece
    gives the pieces of the lower-cased text. *)
Lemma toLowerCase_latin1_pieces (a s b : jsstring) :
  latin1 a -> latin1 s -> latin1 b ->
  toLowerCase (a ++ s ++ b) = toLowerCase a ++ toLowerCase s ++ toLowerCase b.
Proof.
  intros Ha Hs Hb.
  rewrite !toLowerCase_latin1; try assumption.
  - now rewrite !List.map_app.
  - unfold latin1. rewrite !Forall_app. auto.
Qed.

End SearchMore.

Lemma filter_filter_same {A : Type} (keep : A -> bool) (l : list A) :
  List.filter keep (List.filter keep l) = List.filter keep l.
Proof.
  induction l as [|x l IH]; simpl; [reflexivity|].
  destruct (keep x) eqn:E; simpl; rewrite ?E, IH; reflexivity.
Qed.

Lemma filter_sublist_implied {A : Type} (p q : A -> bool) (l : list A) :
  (forall x, p x = true -> q x = true) ->
  sublist (List.filter p l) (List.filter q l).
Proof.
  intros H. induction l as [|x l IH]; simpl; [constructor|].
  destruct (p x) eqn:P.
  - rewrite (H x P). now constructor.
  - destruct (q x); [now constructor | assumption].
Qed.

(** X7.  Filtering by the search box is idempotent: applying
    applyClientSideFilters to its own result changes nothing. *)
Theorem applyClientSideFilters_idempotent
    (entitiesList : list Entity.entity) (currentFilters : App.filters) :
  App.applyClientSideFilters
    (App.applyClientSideFilters entitiesList currentFilters) currentFilters
  = App.applyClientSideFilters entitiesList currentFilters.
Proof.
  unfold App.applyClientSideFilters.
  destruct (JsString.truthy _ && JsString.truthy _); [|reflexivity].
  apply filter_filter_same.
Qed.

(** X8.  For search text of Basic Latin and Latin-1 characters, a longer
    text never brings entities back: when the old text occurs inside the new
    one, the list shown for the new text is the list shown for the old text
    with some entries left out, whatever the entities are called.  (Greek
    text is excluded: a capital sigma is lowered according to its
    neighbours, so the lower-cased old text need not occur in the
    lower-cased new text.) *)
Theorem longer_search_narrows
    (entitiesList : list Entity.entity) (f : App.filters)
    (before text after : JsString.jsstring) :
  JsString.latin1 before -> JsString.latin1 text -> JsString.latin1 after ->
  sublist
    (App.applyClientSideFilters entitiesList
       (FilterBar.handleChange f (FilterBar.Search (before ++ text ++ after))))
    (App.applyClientSideFilters entitiesList
       (FilterBar.handleChange f (FilterBar.Search text))).
Proof.
  intros Hbefore Htext Hafter.
  unfold App.applyClientSideFilters. simpl.
  pose proof (search_guard (before ++ text ++ after)) as G1.
  pose proof (search_guard text) as G2.
  destruct (JsString.truthy (before ++ text ++ after) && _) eqn:E1;
    destruct (JsString.truthy text && _) eqn:E2.
  - apply filter_sublist_implied. intros e. unfold App.matchesSearch.
    rewrite toLowerCase_latin1_pieces by assumption. apply includes_inner.
  - apply filter_sublist.
  - exfalso. assert (Hb : JsString.blank (before ++ text ++ after))
      by now apply G1.
    apply blank_append in Hb as [_ Hb]. apply blank_append in Hb as [Hb _].
    apply G2 in Hb. congruence.
  - reflexivity.
Qed.

Lemma longer_search_narrows_witness :
  sublist
    (App.applyClientSideFilters App.sampleEntities
       (FilterBar.handleChange App.initialFilters
          (FilterBar.Search
             (JsString.text "Rod" ++ JsString.text "rig" ++ JsString.text "uez"))))
    (App.applyClientSideFilters App.sampleEntities
       (FilterBar.handleChange App.initialFilters
          (FilterBar.Search (JsString.text "rig")))).
Proof.
  apply (longer_search_narrows App.sampleEntities App.initialFilters
           (JsString.text "Rod") (JsString.text "rig") (JsString.text "uez"));
    repeat constructor.
Defined.

Example longer_search_sigma :
  App.applyClientSideFilters [App.alphaSigma]
    (FilterBar.handleChange App.initialFilters (FilterBar.Search [913; 931]%N))
    = [App.alphaSigma] /\
  App.applyClientSideFilters [App.alphaSigma]
    (FilterBar.handleChange App.initialFilters (FilterBar.Search [931]%N))
    = [].
Proof. split; reflexivity. Qed.

(** ** Selection across a reload *)

(** X9.  After a successful, non-empty load the selection is either a row
    of the new data carrying the selected name, or it is cleared; it is
    cleared exactly when no row carries that name.  (On an empty answer the
    old selection is kept as it is.) *)
Theorem afterLoad_tracks_name
    (sel : Entity.entity) (data : list Entity.entity) :
  data <> [] ->
  match Selection.afterLoad (Some sel) data with
  | Some e => e ∈ data /\ Entity.entity_name e = Entity.entity_name sel
  | None => forall e, e ∈ data -> Entity.entity_name e <> Entity.entity_name sel
  end.
Proof.
  intros Hne. unfold Selection.afterLoad.
  destruct data as [|d data]; [congruence|].
  destruct (List.find _ (d :: data)) as [e|] eqn:E.
  - apply List.find_some in E as [Hin Heq].
    apply bool_decide_eq_true in Heq. split; [now apply list_elem_of_In | assumption].
  - intros e He Hname.
    apply list_elem_of_In in He.
    pose proof (List.find_none _ _ E e He) as Hf.
    apply bool_decide_eq_false in Hf. contradiction.
Qed.

Lemma afterLoad_tracks_name_witness :
  match Selection.afterLoad (Some (App.sampleEntity "Lawyer B")) App.sampleEntities with
  | Some e => e ∈ App.sampleEntities /\
              Entity.entity_name e = Entity.entity_name (App.sampleEntity "Lawyer B")
  | None => forall e, e ∈ App.sampleEntities ->
              Entity.entity_name e <> Entity.entity_name (App.sampleEntity "Lawyer B")
  end.
Proof.
  apply (afterLoad_tracks_name (App.sampleEntity "Lawyer B") App.sampleEntities).
  discriminate.
Defined.

Example afterLoad_edges :
  Selection.afterLoad (Some (App.sampleEntity "Nurse E")) App.sampleEntities = None /\
  Selection.afterLoad (Some (App.sampleEntity "Nurse E")) []
    = Some (App.sampleEntity "Nurse E") /\
  Selection.afterLoad None App.sampleEntities = None.
Proof. repeat split; reflexivity. Qed.

(** ** Ego network, continued *)

Section EgoMore.

Import NetworkVisualization NetworkView.

Implicit Types (data : networkData) (e : edge) (k : key) (sel : string).

Lemma isSelected_idOr sel (x : endpoint) :
  sel <> EmptyString -> isSelected sel x = true -> idOr x = KStr sel.
Proof.
  intros Hsel H. apply isSelected_endId in H.
  rewrite idOr_named; congruence.
Qed.

Lemma idOr_isSelected sel (x : endpoint) :
  idOr x = KStr sel -> isSelected sel x = true.
Proof.
  destruct x as [s|n]; simpl.
  - intros [= ->]. apply String.eqb_refl.
  - destruct (Js.truthy (id n)); [|discriminate].
    intros [= ->]. apply String.eqb_refl.
Qed.

Lemma touches_isSelected sel e :
  sel <> EmptyString ->
  touches sel e = true <->
  isSelected sel (source e) = true \/ isSelected sel (target e) = true.
Proof.
  intros Hsel. unfold touches.
  rewrite orb_true_iff, !bool_decide_eq_true. split.
  - intros [H|H]; [left | right]; now apply idOr_isSelected.
  - intros [H|H]; [left | right]; now apply isSelected_idOr.
Qed.

(** An edge at the selection has both its ends collected. *)
Lemma incident_ends_collected data sel e :
  sel <> EmptyString -> e ∈ edges data ->
  isSelected sel (source e) = true \/ isSelected sel (target e) = true ->
  idOr (source e) ∈ connectedNodeIds data sel /\
  idOr (target e) ∈ connectedNodeIds data sel.
Proof.
  intros Hsel He H. rewrite !elem_of_connectedNodeIds. unfold reaches.
  destruct H as [H|H].
  - split; [left; now apply isSelected_idOr|].
    right. exists e. split; [assumption|]. left. split; [assumption | reflexivity].
  - split; [|left; now apply isSelected_idOr].
    right. exists e. split; [assumption|]. right. split; [assumption | reflexivity].
Qed.

Lemma incident_edge_kept data sel e :
  sel <> EmptyString -> e ∈ edges data ->
  isSelected sel (source e) = true \/ isSelected sel (target e) = true ->
  e ∈ edges (egoData data sel).
Proof.
  intros Hsel He H. apply elem_of_ego_edges. split; [assumption|].
  now apply incident_ends_collected.
Qed.

(** The ego graph collects the same ids as the data it was cut from. *)
Lemma connected_of_ego data sel k :
  sel <> EmptyString ->
  k ∈ connectedNodeIds (egoData data sel) sel <-> k ∈ connectedNodeIds data sel.
Proof.
  intros Hsel. rewrite !elem_of_connectedNodeIds. split.
  - intros [H|(e & He & H)]; [now left|]. right. exists e.
    apply elem_of_ego_edges in He as [He _]. now split.
  - intros [H|(e & He & H)]; [now left|]. right. exists e. split; [|assumption].
    apply incident_edge_kept; try assumption.
    destruct H as [[H _]|[H _]]; [now left | now right].
Qed.

Lemma egoData_unfold data sel :
  egoData data sel =
  {| nodes := List.filter (fun n => has (connectedNodeIds data sel) (KStr (id n)))
                (nodes data);
     edges := List.filter
                (fun e => has (connectedNodeIds data sel) (idOr (source e)) &&
                          has (connectedNodeIds data sel) (idOr (target e)))
                (edges data) |}.
Proof. reflexivity. Qed.

Lemma has_ext (s s' : list key) :
  (forall k, k ∈ s <-> k ∈ s') -> forall k, has s k = has s' k.
Proof.
  intros H k. unfold has. apply bool_decide_ext. apply H.
Qed.

Lemma filter_filter_ext {A : Type} (f g : A -> bool) (l : list A) :
  (forall x, f x = g x) -> List.filter f (List.filter g l) = List.filter g l.
Proof.
  intros H. induction l as [|x l IH]; simpl; [reflexivity|].
  destruct (g x) eqn:E; simpl; rewrite ?H, ?E, IH; reflexivity.
Qed.

Lemma elem_of_foldl_mark sel (es : list edge) (s : list key) k :
  k ∈ foldl (mark sel) s es <->
  k ∈ s \/ exists e, e ∈ es /\ touches sel e = true /\
                     (k = idOr (source e) \/ k = idOr (target e)).
Proof.
  revert s. induction es as [|e es IH]; intros s; simpl.
  - split; [tauto|]. intros [H|(e & He & _)]; [assumption|].
    now apply elem_of_nil in He.
  - rewrite IH. unfold mark. split.
    + intros [H|(e' & He' & H)].
      * destruct (touches sel e) eqn:T; [|now left].
        rewrite !elem_of_add in H. destruct H as [[H|H]|H]; [now left| |];
          right; exists e; (split; [now left|]); auto.
      * right. exists e'. split; [now right | assumption].
    + intros [H|(e' & He' & T & H)].
      * left. destruct (touches sel e); [|assumption].
        rewrite !elem_of_add. tauto.
      * apply elem_of_cons in He' as [->|He'].
        -- left. rewrite T, !elem_of_add. tauto.
        -- right. exists e'. auto.
Qed.

End EgoMore.

(** X10.  The ego view loses no connection of the selected entity: every
    edge of the data with the selected entity at one end is kept, provided
    the selected name is not empty. *)
Theorem egoData_keeps_incident_edges
    (data : NetworkVisualization.networkData) (selectedNodeId : string)
    (e : NetworkVisualization.edge) :
  selectedNodeId <> EmptyString ->
  e ∈ NetworkVisualization.edges data ->
  NetworkVisualization.endId (NetworkVisualization.source e) = selectedNodeId \/
  NetworkVisualization.endId (NetworkVisualization.target e) = selectedNodeId ->
  e ∈ NetworkVisualization.edges (NetworkVisualization.egoData data selectedNodeId).
Proof.
  intros Hsel He H. apply incident_edge_kept; try assumption.
  rewrite !isSelected_endId. exact H.
Qed.

Lemma egoData_keeps_incident_edges_witness :
  NetworkVisualization.mkEdge (NetworkVisualization.EId "Business C")
    (NetworkVisualization.ENode (NetworkVisualization.mkNode "Dr. A"))
  ∈ NetworkVisualization.edges
      (NetworkVisualization.egoData NetworkVisualization.sampleGraph "Dr. A").
Proof.
  apply (egoData_keeps_incident_edges NetworkVisualization.sampleGraph "Dr. A").
  - discriminate.
  - vm_compute. set_solver.
  - right. reflexivity.
Defined.

(** X11.  Cutting the ego view out of an ego view changes nothing: for a
    non-empty selected name, egoData applied to its own result returns that
    result. *)
Theorem egoData_idempotent
    (data : NetworkVisualization.networkData) (selectedNodeId : string) :
  selectedNodeId <> EmptyString ->
  NetworkVisualization.egoData
    (NetworkVisualization.egoData data selectedNodeId) selectedNodeId
  = NetworkVisualization.egoData data selectedNodeId.
Proof.
  intros Hsel.
  pose proof (has_ext _ _ (fun k => connected_of_ego data selectedNodeId k Hsel)) as Hh.
  remember (NetworkVisualization.egoData data selectedNodeId) as g eqn:Eg.
  assert (Hn : NetworkVisualization.nodes g =
               List.filter
                 (fun n => NetworkVisualization.has
                             (NetworkVisualization.connectedNodeIds data selectedNodeId)
                             (NetworkVisualization.KStr (NetworkVisualization.id n)))
                 (NetworkVisualization.nodes data)) by (subst g; reflexivity).
  assert (He : NetworkVisualization.edges g =
               List.filter
                 (fun e => NetworkVisualization.has
                             (NetworkVisualization.connectedNodeIds data selectedNodeId)
                             (NetworkVisualization.idOr (NetworkVisualization.source e)) &&
                           NetworkVisualization.has
                             (NetworkVisualization.connectedNodeIds data selectedNodeId)
                             (NetworkVisualization.idOr (NetworkVisualization.target e)))
                 (NetworkVisualization.edges data)) by (subst g; reflexivity).
  rewrite (egoData_unfold g selectedNodeId), Hn, He.
  transitivity (NetworkVisualization.egoData data selectedNodeId); [|now subst g].
  rewrite (egoData_unfold data selectedNodeId).
  f_equal; apply filter_filter_ext; intros x; now rewrite !Hh.
Qed.

Lemma egoData_idempotent_witness :
  NetworkVisualization.egoData
    (NetworkVisualization.egoData NetworkVisualization.sampleGraph "Dr. A") "Dr. A"
  = NetworkVisualization.egoData NetworkVisualization.sampleGraph "Dr. A".
Proof.
  apply (egoData_idempotent NetworkVisualization.sampleGraph "Dr. A").
  discriminate.
Defined.

(** X12.  Highlighting marks the ego network: for a non-empty selected name,
    the ids highlighted on the full data, and those highlighted on the ego
    view, are exactly the ids the ego view collects (the selected entity and
    the far ends of its edges); the highlighted links are exactly the edges
    with the selected entity at one end. *)
Theorem highlight_is_ego_network
    (data : NetworkVisualization.networkData) (selectedNodeId : string) :
  selectedNodeId <> EmptyString ->
  (forall k, k ∈ NetworkView.highlightNodes data selectedNodeId <->
             k ∈ NetworkVisualization.connectedNodeIds data selectedNodeId) /\
  (forall k, k ∈ NetworkView.highlightNodes
                   (NetworkVisualization.egoData data selectedNodeId) selectedNodeId <->
             k ∈ NetworkVisualization.connectedNodeIds data selectedNodeId) /\
  (forall e, e ∈ NetworkView.highlightLinks data selectedNodeId <->
             e ∈ NetworkVisualization.edges data /\
             (NetworkVisualization.endId (NetworkVisualization.source e) = selectedNodeId \/
              NetworkVisualization.endId (NetworkVisualization.target e) = selectedNodeId)).
Proof.
  intros Hsel.
  assert (Hfull : forall d k,
            k ∈ NetworkView.highlightNodes d selectedNodeId <->
            k ∈ NetworkVisualization.connectedNodeIds d selectedNodeId).
  { intros d k. unfold NetworkView.highlightNodes.
    rewrite elem_of_foldl_mark, elem_of_connectedNodeIds, list_elem_of_singleton.
    unfold NetworkVisualization.reaches. split.
    - intros [H|(e & He & T & H)]; [now left|].
      apply touches_isSelected in T; [|assumption].
      destruct T as [T|T]; destruct H as [H|H]; subst k.
      + left. now apply isSelected_idOr.
      + right. exists e. tauto.
      + right. exists e. tauto.
      + left. now apply isSelected_idOr.
    - intros [H|(e & He & H)]; [now left|]. right. exists e.
      split; [assumption|]. split.
      + apply touches_isSelected; [assumption|]. tauto.
      + tauto. }
  split; [apply Hfull|]. split.
  - intros k. rewrite Hfull. now apply connected_of_ego.
  - intros e. unfold NetworkView.highlightLinks.
    rewrite list_elem_of_In, List.filter_In, <- list_elem_of_In.
    rewrite touches_isSelected by assumption.
    rewrite !isSelected_endId. reflexivity.
Qed.

Lemma highlight_is_ego_network_witness :
  NetworkVisualization.KStr "Lawyer B"
    ∈ NetworkView.highlightNodes NetworkVisualization.sampleGraph "Dr. A".
Proof.
  destruct (highlight_is_ego_network NetworkVisualization.sampleGraph "Dr. A")
    as (H & _ & _).
  - discriminate.
  - apply H. vm_compute. repeat constructor.
Defined.

(** ** Community view *)

Section CommunityView.

Import NetworkVisualization NetworkView.

Implicit Types (data : networkData) (n : node) (k : key) (sel : string).

Lemma sharesCommunity_iff (cs : list Z) n :
  sharesCommunity cs n = true <-> exists c, c ∈ communities n /\ c ∈ cs.
Proof.
  unfold sharesCommunity. rewrite existsb_exists. split.
  - intros (c & Hc & H). apply bool_decide_eq_true in H.
    exists c. split; [now apply list_elem_of_In | assumption].
  - intros (c & Hc & H). exists c.
    split; [now apply list_elem_of_In | now apply bool_decide_eq_true].
Qed.

Lemma elem_of_foldl_noteMember (cs : list Z) (ns : list node) (s : list key) k :
  k ∈ foldl (noteMember cs) s ns <->
  k ∈ s \/ exists n, n ∈ ns /\ sharesCommunity cs n = true /\ k = KStr (id n).
Proof.
  revert s. induction ns as [|n ns IH]; intros s; simpl.
  - split; [tauto|]. intros [H|(n & Hn & _)]; [assumption|].
    now apply elem_of_nil in Hn.
  - rewrite IH. unfold noteMember. split.
    + intros [H|(n' & Hn' & H)].
      * destruct (sharesCommunity cs n) eqn:E; [|now left].
        apply elem_of_add in H as [H|H]; [now left|].
        right. exists n. split; [now left | auto].
      * right. exists n'. split; [now right | assumption].
    + intros [H|(n' & Hn' & S & H)].
      * left. destruct (sharesCommunity cs n); [|assumption].
        apply elem_of_add. now left.
      * apply elem_of_cons in Hn' as [->|Hn'].
        -- left. rewrite S. apply elem_of_add. now right.
        -- right. exists n'. auto.
Qed.

Lemma elem_of_communityNodeIds data (cs : list Z) k :
  k ∈ communityNodeIds data cs <->
  exists n, n ∈ nodes data /\ sharesCommunity cs n = true /\ k = KStr (id n).
Proof.
  unfold communityNodeIds. rewrite elem_of_foldl_noteMember. split.
  - intros [H|H]; [now apply elem_of_nil in H | assumption].
  - intros H. now right.
Qed.

(** An edge end whose key is a collected name belongs to a listed node that
    shares a community. *)
Lemma collected_end data (cs : list Z) (x : endpoint) :
  idOr x ∈ communityNodeIds data cs ->
  exists n, n ∈ nodes data /\ sharesCommunity cs n = true /\ id n = endId x.
Proof.
  intros H. apply elem_of_communityNodeIds in H as (n & Hn & S & E).
  exists n. split; [assumption|]. split; [assumption|].
  destruct x as [s|m]; simpl in *.
  - congruence.
  - destruct (Js.truthy (id m)); [congruence | discriminate].
Qed.

End CommunityView.

(** X13.  When the community view shows the filtered data, the selected
    node has communities and is itself shown; a listed node is shown exactly
    when some listed node of the same id shares a community with the
    selected node; and every edge shown has both ends among the shown nodes,
    whatever the data. *)
Theorem communityData_members
    (data : NetworkVisualization.networkData) (selectedNodeId : string)
    (g : NetworkVisualization.networkData) :
  NetworkView.communityData data selectedNodeId = NetworkView.Members g ->
  exists selectedNode,
    selectedNode ∈ NetworkVisualization.nodes g /\
    NetworkVisualization.id selectedNode = selectedNodeId /\
    NetworkVisualization.communities selectedNode <> [] /\
    (forall n, n ∈ NetworkVisualization.nodes g <->
       n ∈ NetworkVisualization.nodes data /\
       exists n' c, n' ∈ NetworkVisualization.nodes data /\
         NetworkVisualization.id n' = NetworkVisualization.id n /\
         c ∈ NetworkVisualization.communities n' /\
         c ∈ NetworkVisualization.communities selectedNode) /\
    (forall e, e ∈ NetworkVisualization.edges g ->
       e ∈ NetworkVisualization.edges data /\
       NetworkVisualization.endId (NetworkVisualization.source e)
         ∈ NetworkVisualization.nodeIds g /\
       NetworkVisualization.endId (NetworkVisualization.target e)
         ∈ NetworkVisualization.nodeIds g).
Proof.
  unfold NetworkView.communityData.
  destruct (List.find _ (NetworkVisualization.nodes data)) as [sn|] eqn:F;
    [|discriminate].
  assert (Hview :
    NetworkVisualization.communities sn <> [] ->
    NetworkView.Members
      {| NetworkVisualization.nodes :=
           List.filter
             (fun n => NetworkVisualization.has
                         (NetworkView.communityNodeIds data
                            (NetworkVisualization.communities sn))
                         (NetworkVisualization.KStr (NetworkVisualization.id n)))
             (NetworkVisualization.nodes data);
         NetworkVisualization.edges :=
           List.filter
             (fun e => NetworkVisualization.has
                         (NetworkView.communityNodeIds data
                            (NetworkVisualization.communities sn))
                         (NetworkVisualization.idOr (NetworkVisualization.source e)) &&
                       NetworkVisualization.has
                         (NetworkView.communityNodeIds data
                            (NetworkVisualization.communities sn))
                         (NetworkVisualization.idOr (NetworkVisualization.target e)))
             (NetworkVisualization.edges data) |} = NetworkView.Members g ->
    exists selectedNode,
      selectedNode ∈ NetworkVisualization.nodes g /\
      NetworkVisualization.id selectedNode = selectedNodeId /\
      NetworkVisualization.communities selectedNode <> [] /\
      (forall n, n ∈ NetworkVisualization.nodes g <->
         n ∈ NetworkVisualization.nodes data /\
         exists n' c, n' ∈ NetworkVisualization.nodes data /\
           NetworkVisualization.id n' = NetworkVisualization.id n /\
           c ∈ NetworkVisualization.communities n' /\
           c ∈ NetworkVisualization.communities selectedNode) /\
      (forall e, e ∈ NetworkVisualization.edges g ->
         e ∈ NetworkVisualization.edges data /\
         NetworkVisualization.endId (NetworkVisualization.source e)
           ∈ NetworkVisualization.nodeIds g /\
         NetworkVisualization.endId (NetworkVisualization.target e)
           ∈ NetworkVisualization.nodeIds g)).
  { intros Hne [= <-].
    apply List.find_some in F as [Hsn Hid]. apply String.eqb_eq in Hid.
    apply list_elem_of_In in Hsn.
    set (ids := NetworkView.communityNodeIds data
                  (NetworkVisualization.communities sn)).
    assert (Hnodes : forall n,
              n ∈ List.filter
                    (fun n => NetworkVisualization.has ids
                                (NetworkVisualization.KStr (NetworkVisualization.id n)))
                    (NetworkVisualization.nodes data) <->
              n ∈ NetworkVisualization.nodes data /\
              exists n' c, n' ∈ NetworkVisualization.nodes data /\
                NetworkVisualization.id n' = NetworkVisualization.id n /\
                c ∈ NetworkVisualization.communities n' /\
                c ∈ NetworkVisualization.communities sn).
    { intros n. rewrite list_elem_of_In, List.filter_In, <- list_elem_of_In.
      rewrite has_elem_of. unfold ids. rewrite elem_of_communityNodeIds.
      split.
      - intros [Hn (n' & Hn' & S & E)]. split; [assumption|].
        apply sharesCommunity_iff in S as (c & Hc & Hc').
        exists n', c. repeat split; try assumption. congruence.
      - intros [Hn (n' & c & Hn' & E & Hc & Hc')]. split; [assumption|].
        exists n'. split; [assumption|]. split; [|congruence].
        apply sharesCommunity_iff. eauto. }
    assert (Hend : forall x,
              NetworkVisualization.idOr x ∈ ids ->
              NetworkVisualization.endId x ∈
                NetworkVisualization.id <$>
                  List.filter
                    (fun n => NetworkVisualization.has ids
                                (NetworkVisualization.KStr (NetworkVisualization.id n)))
                    (NetworkVisualization.nodes data)).
    { intros x Hx. apply collected_end in Hx as (n & Hn & S & E).
      apply list_elem_of_fmap. exists n. split; [congruence|].
      apply Hnodes. split; [assumption|].
      apply sharesCommunity_iff in S as (c & Hc & Hc'). exists n, c. auto. }
    exists sn. simpl. split; [|split; [assumption|split; [assumption|split]]].
    - apply Hnodes. split; [assumption|].
      destruct (NetworkVisualization.communities sn) as [|c cs] eqn:C;
        [congruence|].
      exists sn, c. rewrite C. repeat split; try assumption; now left.
    - exact Hnodes.
    - intros e He.
      apply list_elem_of_In, List.filter_In in He as [He Hb].
      apply andb_true_iff in Hb as [Hs Ht]. apply has_elem_of in Hs, Ht.
      split; [now apply list_elem_of_In|].
      split; apply Hend; assumption. }
  destruct (NetworkVisualization.communities sn) as [|c0 cs0] eqn:C;
    [discriminate|].
  rewrite <- C in *. apply Hview. rewrite C. discriminate.
Qed.

Lemma communityData_members_witness :
  exists selectedNode,
    selectedNode ∈ NetworkVisualization.nodes NetworkView.ringView /\
    NetworkVisualization.id selectedNode = "Dr. A" /\
    NetworkVisualization.communities selectedNode <> [] /\
    (forall n, n ∈ NetworkVisualization.nodes NetworkView.ringView <->
       n ∈ NetworkVisualization.nodes NetworkView.ringGraph /\
       exists n' c, n' ∈ NetworkVisualization.nodes NetworkView.ringGraph /\
         NetworkVisualization.id n' = NetworkVisualization.id n /\
         c ∈ NetworkVisualization.communities n' /\
         c ∈ NetworkVisualization.communities selectedNode) /\
    (forall e, e ∈ NetworkVisualization.edges NetworkView.ringView ->
       e ∈ NetworkVisualization.edges NetworkView.ringGraph /\
       NetworkVisualization.endId (NetworkVisualization.source e)
         ∈ NetworkVisualization.nodeIds NetworkView.ringView /\
       NetworkVisualization.endId (NetworkVisualization.target e)
         ∈ NetworkVisualization.nodeIds NetworkView.ringView).
Proof.
  apply (communityData_members NetworkView.ringGraph "Dr. A" NetworkView.ringView).
  vm_compute. reflexivity.
Defined.

(** X14.  When the selected entity is not a node of the data, the community
    view shows a single node and no edge, and that node is the first node of
    the data, whoever it is (an undefined node when the data has none). *)
Theorem communityData_unknown_selection
    (data : NetworkVisualization.networkData) (selectedNodeId : string) :
  (forall n, n ∈ NetworkVisualization.nodes data ->
     NetworkVisualization.id n <> selectedNodeId) ->
  NetworkView.communityData data selectedNodeId
  = NetworkView.Lone (head (NetworkVisualization.nodes data)).
Proof.
  intros H. unfold NetworkView.communityData.
  destruct (List.find _ (NetworkVisualization.nodes data)) as [sn|] eqn:F;
    [|reflexivity].
  apply List.find_some in F as [Hsn Hid]. apply String.eqb_eq in Hid.
  exfalso. apply (H sn); [now apply list_elem_of_In | assumption].
Qed.

Lemma communityData_unknown_selection_witness :
  NetworkView.communityData NetworkView.ringGraph "Nurse E"
  = NetworkView.Lone (Some (NetworkView.inCommunities "Dr. A" [0; 1]%Z)).
Proof.
  apply (communityData_unknown_selection NetworkView.ringGraph "Nurse E").
  intros n Hn. simpl in Hn.
  repeat (apply elem_of_cons in Hn as [->|Hn]; [discriminate|]).
  now apply elem_of_nil in Hn.
Defined.

(** ** Colours *)

Section Colours.

Import NetworkVisualization NetworkView.

Lemma colorOf_nonneg (c : Z) :
  (0 <= c)%Z ->
  exists col, colorOf c = Some col /\ col ∈ communityColors /\ col <> "#95A5A6".
Proof.
  intros Hc. unfold colorOf.
  pose proof (Z.rem_bound_pos c (Z.of_nat (length communityColors)) Hc) as Hb.
  simpl in Hb. specialize (Hb ltac:(lia)).
  change (Z.of_nat (length communityColors)) with 10%Z.
  destruct (Z.rem c 10 <? 0)%Z eqn:E; [apply Z.ltb_lt in E; lia|].
  destruct (communityColors !! Z.to_nat (Z.rem c 10)) as [col|] eqn:L.
  - exists col. split; [reflexivity|]. split.
    + apply list_elem_of_lookup. eauto.
    + assert (Hall : Forall (fun x => x <> "#95A5A6") communityColors)
        by (repeat constructor; discriminate).
      rewrite Forall_forall in Hall. apply Hall.
      apply list_elem_of_lookup. eauto.
  - apply lookup_ge_None in L. simpl in L. lia.
Qed.

End Colours.

(** X15.  With community ids that are not negative, getNodeColor always
    yields a colour: grey for a node in no community, and otherwise one of
    the ten palette colours (never the grey), chosen by the first community
    alone; communities whose ids are ten apart get the same colour. *)
Theorem getNodeColor_palette (n : NetworkVisualization.node) :
  (forall c, c ∈ NetworkVisualization.communities n -> (0 <= c)%Z) ->
  (exists col, NetworkView.getNodeColor n = Some col /\
     (NetworkVisualization.communities n = [] -> col = "#95A5A6") /\
     (NetworkVisualization.communities n <> [] ->
        col ∈ NetworkView.communityColors /\ col <> "#95A5A6" /\
        Some col = NetworkView.colorOf (default 0%Z (head (NetworkVisualization.communities n))))) /\
  (forall c, c ∈ NetworkVisualization.communities n ->
     NetworkView.colorOf (c + 10) = NetworkView.colorOf c).
Proof.
  intros Hpos. split.
  - unfold NetworkView.getNodeColor.
    destruct (NetworkVisualization.communities n) as [|c cs] eqn:C.
    + exists "#95A5A6". repeat split; congruence.
    + destruct (colorOf_nonneg c) as (col & H1 & H2 & H3); [apply Hpos; now left|].
      exists col. split; [assumption|]. split; [discriminate|].
      intros _. simpl. auto.
  - intros c Hc. specialize (Hpos c Hc). unfold NetworkView.colorOf.
    change (Z.of_nat (length NetworkView.communityColors)) with 10%Z.
    rewrite !Z.rem_mod_nonneg by lia.
    replace (c + 10)%Z with (c + 1 * 10)%Z by lia.
    now rewrite Z_mod_plus_full.
Qed.

Lemma getNodeColor_palette_witness :
  exists col,
    NetworkView.getNodeColor (NetworkView.inCommunities "Dr. A" [0; 1]%Z) = Some col /\
    col ∈ NetworkView.communityColors.
Proof.
  destruct (getNodeColor_palette (NetworkView.inCommunities "Dr. A" [0; 1]%Z))
    as [(col & H1 & _ & H2) _].
  - intros c Hc. simpl in Hc.
    repeat (apply elem_of_cons in Hc as [->|Hc]; [lia|]).
    now apply elem_of_nil in Hc.
  - exists col. split; [assumption|]. apply H2. discriminate.
Defined.

(** X16.  The colour stops of a node in several communities are valid
    gradient offsets: there are min(number of communities, 3) of them and
    each offset lies in [0, 1). *)
Theorem gradientStops_offsets_valid (n : NetworkVisualization.node) :
  length (NetworkView.gradientStops n)
    = Nat.min (length (NetworkVisualization.communities n)) 3 /\
  (forall offset col, (offset, col) ∈ NetworkView.gradientStops n ->
     (0 <= offset)%Q /\ (offset < 1)%Q).
Proof.
  unfold NetworkView.gradientStops. split.
  - rewrite length_imap, length_take. lia.
  - intros offset col H.
    apply elem_of_lookup_imap in H as (i & c & [= -> _] & L).
    apply lookup_lt_Some in L. rewrite length_take in L.
    set (d := Nat.min (length (NetworkVisualization.communities n)) 3) in *.
    assert (Hd : (0 < inject_Z (Z.of_nat d))%Q).
    { rewrite <- (Zlt_Qlt 0). lia. }
    split.
    + apply Qle_shift_div_l; [assumption|]. rewrite Qmult_0_l.
      rewrite <- (Zle_Qle 0). lia.
    + apply Qlt_shift_div_r; [assumption|]. rewrite Qmult_1_l.
      rewrite <- Zlt_Qlt. lia.
Qed.

(** ** Sizes and links *)

Section Sizes.

Import NetworkVisualization NetworkView.

Local Open Scope Q_scope.

Lemma foldl_Qmax_bounds (l : list Q) (a : Q) :
  a <= foldl Qmax a l /\ (forall x, x ∈ l -> x <= foldl Qmax a l).
Proof.
  revert a. induction l as [|y l IH]; intros a; simpl.
  - split; [apply Qle_refl|]. intros x Hx. now apply elem_of_nil in Hx.
  - destruct (IH (Qmax a y)) as [H1 H2]. split.
    + eapply Qle_trans; [apply Q.le_max_l | exact H1].
    + intros x Hx. apply elem_of_cons in Hx as [->|Hx]; [|now apply H2].
      eapply Qle_trans; [apply Q.le_max_r | exact H1].
Qed.

Lemma foldl_Qmin_bounds (l : list Q) (a : Q) :
  foldl Qmin a l <= a /\ (forall x, x ∈ l -> foldl Qmin a l <= x).
Proof.
  revert a. induction l as [|y l IH]; intros a; simpl.
  - split; [apply Qle_refl|]. intros x Hx. now apply elem_of_nil in Hx.
  - destruct (IH (Qmin a y)) as [H1 H2]. split.
    + eapply Qle_trans; [exact H1 | apply Q.le_min_l].
    + intros x Hx. apply elem_of_cons in Hx as [->|Hx]; [|now apply H2].
      eapply Qle_trans; [exact H1 | apply Q.le_min_r].
Qed.

Lemma maxOf_bounds (values : list Q) (x : Q) :
  x ∈ values -> exists hi, maxOf values = Some hi /\ x <= hi.
Proof.
  destruct values as [|v vs]; intros Hx; [now apply elem_of_nil in Hx|].
  exists (foldl Qmax v vs). split; [reflexivity|].
  destruct (foldl_Qmax_bounds vs v) as [H1 H2].
  apply elem_of_cons in Hx as [->|Hx]; auto.
Qed.

Lemma minOf_bounds (values : list Q) (x : Q) :
  x ∈ values -> exists lo, minOf values = Some lo /\ lo <= x.
Proof.
  destruct values as [|v vs]; intros Hx; [now apply elem_of_nil in Hx|].
  exists (foldl Qmin v vs). split; [reflexivity|].
  destruct (foldl_Qmin_bounds vs v) as [H1 H2].
  apply elem_of_cons in Hx as [->|Hx]; auto.
Qed.

(** A value between two different bounds, rescaled to [0,1]. *)
Lemma normalized_unit (x lo hi : Q) :
  lo <= x -> x <= hi -> ~ hi == lo ->
  0 <= (x - lo) / (hi - lo) /\ (x - lo) / (hi - lo) <= 1.
Proof.
  intros H1 H2 Hne.
  assert (Hlt : 0 < hi - lo).
  { destruct (Qlt_le_dec lo hi) as [H|H]; [Lqa.lra|].
    exfalso. apply Hne. apply Qle_antisym; [assumption | Lqa.lra]. }
  split.
  - apply Qle_shift_div_l; [assumption | Lqa.lra].
  - apply Qle_shift_div_r; [assumption | Lqa.lra].
Qed.

End Sizes.

(** X17.  A node of the data on display is drawn with a finite radius of
    at least 3; the radius is at most 12 unless the node is the selected one
    (which is drawn 1.3 times larger), and below 16 in every case. *)
Theorem getNodeSize_bounds
    (ns : list NetworkView.measured) (sortBy : string)
    (selected : option string) (m : NetworkView.measured) :
  m ∈ ns ->
  exists size,
    NetworkView.getNodeSize (Some ns) sortBy selected m = Js.Num size /\
    (3 <= size)%Q /\ (size < 16)%Q /\
    (selected <> Some (NetworkVisualization.id (NetworkView.shown m)) ->
     (size <= 12)%Q).
Proof.
  intros Hm. unfold NetworkView.getNodeSize.
  assert (Hv : NetworkView.metricOf sortBy m ∈ NetworkView.metricOf sortBy <$> ns)
    by (apply list_elem_of_fmap; eauto).
  destruct (maxOf_bounds _ _ Hv) as (hi & -> & Hhi).
  destruct (minOf_bounds _ _ Hv) as (lo & -> & Hlo).
  destruct (Qeq_bool hi lo) eqn:E.
  - exists 3%Q. repeat split; try reflexivity; discriminate.
  - apply Qeq_bool_neq in E.
    destruct (normalized_unit _ _ _ Hlo Hhi E) as [N0 N1].
    set (t := ((NetworkView.metricOf sortBy m - lo) / (hi - lo))%Q) in *.
    destruct selected as [sel|].
    + destruct (String.eqb _ sel) eqn:S.
      * apply String.eqb_eq in S. eexists. split; [reflexivity|].
        repeat split; try Lqa.lra. intros H. congruence.
      * eexists. split; [reflexivity|]. repeat split; Lqa.lra.
    + eexists. split; [reflexivity|]. repeat split; Lqa.lra.
Qed.

Lemma getNodeSize_bounds_witness :
  exists size,
    NetworkView.getNodeSize (Some NetworkView.sizedNodes) "total_exposure"
      (Some "Dr. A") (NetworkView.sized "Lawyer B" 45 30000) = Js.Num size /\
    (3 <= size)%Q /\ (size < 16)%Q /\
    (Some "Dr. A" <> Some (NetworkVisualization.id
                            (NetworkView.shown (NetworkView.sized "Lawyer B" 45 30000))) ->
     (size <= 12)%Q).
Proof.
  apply (getNodeSize_bounds NetworkView.sizedNodes "total_exposure" (Some "Dr. A")
           (NetworkView.sized "Lawyer B" 45 30000)).
  right. left.
Defined.

Example getNodeSize_sample :
  NetworkView.getNodeSize (Some NetworkView.sizedNodes) "ensemble_score"
    (Some "Lawyer B") (NetworkView.sized "Dr. A" 90 80000) = Js.Num (540 # 45) /\
  NetworkView.getNodeSize None "ensemble_score" None
    (NetworkView.sized "Lawyer B" 45 30000) = Js.Num 3 /\
  NetworkView.getNodeSize (Some []) "ensemble_score" None
    (NetworkView.sized "Lawyer B" 45 30000) = Js.NaN.
Proof. vm_compute. repeat split; reflexivity. Qed.

Section Links.

Import NetworkVisualization NetworkView.

Local Open Scope Q_scope.

Lemma weightOf_nonneg (e : edge) : 0 <= weightOf e.
Proof. unfold weightOf. rewrite <- (Zle_Qle 0). lia. Qed.

Lemma weightOf_pos (e : edge) : (0 < weight e)%nat -> 0 < weightOf e.
Proof. intros H. unfold weightOf. rewrite <- (Zlt_Qlt 0). lia. Qed.

(** The share of the heaviest weight that a positive-weight edge of the
    data has. *)
Lemma strength_unit (d : networkData) (link : edge) :
  link ∈ edges d -> (0 < weight link)%nat ->
  exists s, strength (Some d) link = Finite s /\ 0 < s /\ s <= 1.
Proof.
  intros Hin Hw. unfold strength.
  assert (Hv : weightOf link ∈ weightOf <$> edges d)
    by (apply list_elem_of_fmap; eauto).
  destruct (maxOf_bounds _ _ Hv) as (hi & -> & Hhi).
  pose proof (weightOf_pos link Hw) as Hpos.
  destruct (Qeq_bool hi 0) eqn:E.
  - apply Qeq_bool_iff in E. exfalso. rewrite E in Hhi. Lqa.lra.
  - exists (weightOf link / hi). split; [reflexivity|].
    assert (Hh : 0 < hi) by Lqa.lra. split.
    + apply Qlt_shift_div_l; [assumption | Lqa.lra].
    + apply Qle_shift_div_r; [assumption | Lqa.lra].
Qed.

End Links.

(** X18.  An edge of the data on display that has a positive weight is
    drawn with a finite thickness in (0.5, 3.5] and a grey level that is a
    whole number between 150 and 255, a valid colour component; the heaviest
    edge gets the level 255. *)
Theorem link_paint_bounds
    (d : NetworkVisualization.networkData) (link : NetworkVisualization.edge) :
  link ∈ NetworkVisualization.edges d ->
  (0 < NetworkVisualization.weight link)%nat ->
  exists (t : Q) (c : Z),
    NetworkView.thickness (Some d) link = NetworkView.Finite t /\
    (1 # 2 < t)%Q /\ (t <= 7 # 2)%Q /\
    NetworkView.colorIntensity (Some d) link = NetworkView.Finite (inject_Z c) /\
    (150 <= c <= 255)%Z /\
    (NetworkView.maxOf (NetworkView.weightOf <$> NetworkVisualization.edges d)
       = Some (NetworkView.weightOf link) -> c = 255%Z).
Proof.
  intros Hin Hw.
  destruct (strength_unit d link Hin Hw) as (s & Hs & H0 & H1).
  unfold NetworkView.thickness, NetworkView.colorIntensity. rewrite Hs.
  exists (s * 3 + (1 # 2))%Q, (Qfloor (150 + s * 105)).
  split; [reflexivity|]. split; [Lqa.lra|]. split; [Lqa.lra|].
  split; [reflexivity|]. split.
  - split.
    + assert (H : (Qfloor (inject_Z 150) <= Qfloor (150 + s * 105))%Z)
        by (apply Qfloor_resp_le; unfold inject_Z; Lqa.lra).
      now rewrite Qfloor_Z in H.
    + assert (H : (Qfloor (150 + s * 105) <= Qfloor (inject_Z 255))%Z)
        by (apply Qfloor_resp_le; unfold inject_Z; Lqa.lra).
      now rewrite Qfloor_Z in H.
  - intros Hmax. unfold NetworkView.strength in Hs. rewrite Hmax in Hs.
    pose proof (weightOf_pos link Hw) as Hpos.
    destruct (Qeq_bool (NetworkView.weightOf link) 0) eqn:E.
    + apply Qeq_bool_iff in E. rewrite E in Hpos. Lqa.lra.
    + injection Hs as <-.
      assert (Hone : (150 + NetworkView.weightOf link / NetworkView.weightOf link * 105 == 255)%Q).
      { field. intros H. rewrite H in Hpos. Lqa.lra. }
      rewrite Hone. reflexivity.
Qed.

Lemma link_paint_bounds_witness :
  exists (t : Q) (c : Z),
    NetworkView.thickness (Some NetworkVisualization.sampleGraph)
      (NetworkVisualization.mkEdge (NetworkVisualization.EId "Dr. A")
         (NetworkVisualization.EId "Lawyer B")) = NetworkView.Finite t /\
    (1 # 2 < t)%Q /\ (t <= 7 # 2)%Q /\
    NetworkView.colorIntensity (Some NetworkVisualization.sampleGraph)
      (NetworkVisualization.mkEdge (NetworkVisualization.EId "Dr. A")
         (NetworkVisualization.EId "Lawyer B")) = NetworkView.Finite (inject_Z c) /\
    (150 <= c <= 255)%Z /\
    (NetworkView.maxOf
       (NetworkView.weightOf <$> NetworkVisualization.edges NetworkVisualization.sampleGraph)
       = Some (NetworkView.weightOf
                 (NetworkVisualization.mkEdge (NetworkVisualization.EId "Dr. A")
                    (NetworkVisualization.EId "Lawyer B"))) -> c = 255%Z).
Proof.
  apply (link_paint_bounds NetworkVisualization.sampleGraph
           (NetworkVisualization.mkEdge (NetworkVisualization.EId "Dr. A")
              (NetworkVisualization.EId "Lawyer B"))).
  - left.
  - simpl. lia.
Defined.

Example link_paint_edges :
  NetworkView.thickness (Some {| NetworkVisualization.nodes := [];
                                 NetworkVisualization.edges := [] |})
    (NetworkVisualization.mkEdge (NetworkVisualization.EId "Dr. A")
       (NetworkVisualization.EId "Lawyer B")) = NetworkView.Finite (1 # 2) /\
  NetworkView.colorIntensity (Some {| NetworkVisualization.nodes := [];
                                      NetworkVisualization.edges := [] |})
    (NetworkVisualization.mkEdge (NetworkVisualization.EId "Dr. A")
       (NetworkVisualization.EId "Lawyer B")) = NetworkView.Finite 150.
Proof. vm_compute. split; reflexivity. Qed.

(** ** Fraud rules *)

(** X19.  The colour of a rule value never goes down as the value goes up:
    once a value is bold red every larger value is, once a value is orange
    every larger value is orange or bold red; the classes are bold red from
    8, orange from 5 and grey below, and NaN is grey. *)
Theorem getValueColor_monotone (q q' : Q) :
  (q <= q')%Q ->
  (FraudRulesTable.getValueColor (Js.Num q) = "text-red-600 font-bold" ->
   FraudRulesTable.getValueColor (Js.Num q') = "text-red-600 font-bold") /\
  (FraudRulesTable.getValueColor (Js.Num q) = "text-orange-600" ->
   FraudRulesTable.getValueColor (Js.Num q') = "text-orange-600" \/
   FraudRulesTable.getValueColor (Js.Num q') = "text-red-600 font-bold") /\
  (FraudRulesTable.getValueColor (Js.Num q) = "text-red-600 font-bold" <-> (8 <= q)%Q) /\
  (FraudRulesTable.getValueColor (Js.Num q) = "text-gray-600" <-> (q < 5)%Q) /\
  FraudRulesTable.getValueColor Js.NaN = "text-gray-600".
Proof.
  intros Hle.
  unfold FraudRulesTable.getValueColor.
  pose proof (geb_ge (Js.Num q) 8) as A8. pose proof (geb_ge (Js.Num q') 8) as B8.
  pose proof (geb_ge (Js.Num q) 5) as A5. pose proof (geb_ge (Js.Num q') 5) as B5.
  simpl Js.ge in *.
  assert (Hq : (q < 5)%Q \/ (5 <= q)%Q)
    by (destruct (Qlt_le_dec q 5); [now left | now right]).
  destruct (Js.geb (Js.Num q) 8); destruct (Js.geb (Js.Num q') 8);
    destruct (Js.geb (Js.Num q) 5); destruct (Js.geb (Js.Num q') 5);
    repeat match goal with
           | H : true = true <-> _ |- _ => apply proj1 in H; specialize (H eq_refl)
           | H : false = true <-> _ |- _ =>
               let H' := fresh in
               assert (H' := proj2 H); clear H
           end;
    repeat split; intros; try discriminate; try tauto; try Lqa.lra;
    try (exfalso;
         first [ assert (false = true) by (apply B8; Lqa.lra); discriminate
               | assert (false = true) by (apply B5; Lqa.lra); discriminate
               | assert (false = true) by (apply A8; Lqa.lra); discriminate
               | assert (false = true) by (apply A5; Lqa.lra); discriminate
               | match goal with
                 | H : (_ <= _)%Q -> false = true |- _ =>
                     assert (false = true) by (apply H; Lqa.lra); discriminate
                 end ]).
Qed.

Lemma getValueColor_monotone_witness :
  FraudRulesTable.getValueColor (Js.Num 9) = "text-red-600 font-bold".
Proof.
  destruct (getValueColor_monotone 8 9) as (H & _).
  - discriminate.
  - apply H. reflexivity.
Defined.
